(** * SSAEVMCodeTransform: the stack scheduler of the SSA backend

    A shallow embedding of [libyul/backends/evm/SSAEVMCodeTransform.cpp].
    The transform walks an SSA control-flow graph block by block, keeps a
    model of the operand stack ([m_stack]) and sends labels, stack heights
    and instructions to an assembly (the instruction sink).

    Member functions become computations in a state-and-fault monad: the
    state is the assembly (shared by every transform of one [run]), the
    standard output and the fields of the transform object; a failed
    [yulAssert] or an out-of-range access is a thrown [Fault], after which the
    effects performed so far stay in the state, as they do in C++. *)

From stdpp Require Import base numbers list strings gmap pretty.

(** ** Identities

    [SSACFG::ValueId], [SSACFG::BlockId] and [AbstractAssembly::LabelID] wrap a
    [size_t]; block identities index vectors, so they are kept as [nat]
    (the values a [size_t] admits are those below [2^64]). A function is
    known by its address ([Scope::Function const*]). *)

Abbreviation ValueId := nat (only parsing).
Abbreviation BlockId := nat (only parsing).
Abbreviation LabelID := nat (only parsing).
Abbreviation FunctionAddress := nat (only parsing).

(** [StackSlot] is [std::variant<SSACFG::ValueId, AbstractAssembly::LabelID>]. *)
Inductive StackSlot :=
  | ValueSlot (v : ValueId)
  | LabelSlot (l : LabelID).

#[global] Instance StackSlot_eq_dec : EqDecision StackSlot.
Proof. solve_decision. Defined.

(** ** Integer conversions

    [static_cast<int>] and [static_cast<unsigned>] of a [size_t]: the value
    modulo [2^32], read as a two's complement value in the first case. *)

Definition static_cast_unsigned (n : nat) : N := (N.of_nat n mod 2 ^ 32)%N.

Definition static_cast_int (n : nat) : Z :=
  let z := (Z.of_nat n mod 2 ^ 32)%Z in
  if (z <? 2 ^ 31)%Z then z else (z - 2 ^ 32)%Z.

(** An [int64_t] handed to a [size_t] parameter: the value modulo [2^64]. *)
Definition int64_to_size_t (z : Z) : N := Z.to_N (z mod 2 ^ 64).

(** ** The instruction sink *)

(** Modelled from the spec: [evmasm::Instruction] is declared in libevmasm,
    outside the transform's own file. The spec lists the primitive
    instructions handed to the sink as pop, swap-at-depth and
    duplicate-at-depth. *)
Inductive Instruction :=
  | POP
  | SWAP (depth : N)
  | DUP (depth : N).

#[global] Instance Instruction_eq_dec : EqDecision Instruction.
Proof. solve_decision. Defined.


(** Modelled from the spec: [AbstractAssembly] is an interface of libyul whose
    implementations live outside the transform's own file. The spec describes it
    as accepting a linear stream of requests and allocating label identifiers;
    the model keeps the stream and hands out labels from a counter. A named
    label is asked for with a name, the numbers of arguments and of returns,
    and an optional source id, which the interface takes as an
    [optional<size_t>]. *)
Inductive Request :=
  | NewLabelId
  | NamedLabel (name : string) (params returns : nat) (sourceID : option N)
  | AppendLabel (l : LabelID)
  | SetStackHeight (height : Z)
  | AppendInstruction (i : Instruction).

#[global] Instance Request_eq_dec : EqDecision Request.
Proof. solve_decision. Defined.

Record Assembly := mkAssembly {
  requests : list Request;
  nextLabel : LabelID
}.

(** One line written to [std::cout] by the block traversal: the text is
    "Generate block b<id>: <stack>"; the line keeps the block and the stack
    that [stackToString] is applied to. *)
Inductive CoutLine :=
  | GenerateBlock (b : BlockId) (stack : list StackSlot).

(** What outlives a transform: the assembly and the standard output. *)
Record World := mkWorld {
  assembly : Assembly;
  cout : list CoutLine
}.

(** ** Faults

    [yulAssert] throws an assertion with its message; [std::map::at] and
    the checked accessors throw when the key or index is missing;
    [evmasm::swapInstruction] throws when it is asked for a swap the machine
    does not have. *)

Inductive Fault :=
  | YulAssertion (message : string)
  | OutOfRange
  | InvalidOpcode.

Inductive Outcome (A : Type) :=
  | Returns (a : A)
  | Throws (f : Fault).
Arguments Returns {A} a.
Arguments Throws {A} f.

(** Modelled from the spec: [evmasm::swapInstruction] is declared in
    libevmasm, outside the transform's own file. The spec bounds the swap
    distance by the maximum addressable depth of the machine, 16; the
    function builds the swap for a depth from 1 to 16 and throws for any
    other depth. *)
Definition swapInstruction (_number : N) : Outcome Instruction :=
  if bool_decide (1 ≤ _number ≤ 16)%N then Returns (SWAP _number)
  else Throws InvalidOpcode.

(** ** The monad: state [S], result [A] or a fault; the state survives a fault. *)

Definition M (S A : Type) : Type := S → Outcome A * S.

Definition ret {S A} (a : A) : M S A := λ s, (Returns a, s).

Definition bind {S A B} (c : M S A) (k : A → M S B) : M S B :=
  λ s, match c s with
       | (Returns a, s') => k a s'
       | (Throws f, s') => (Throws f, s')
       end.

Definition throw {S A} (f : Fault) : M S A := λ s, (Throws f, s).

(** The result of a function that reads and writes no state. *)
Definition pure_call {S A} (o : Outcome A) : M S A := λ s, (o, s).
Definition gets {S A} (f : S → A) : M S A := λ s, (Returns (f s), s).
Definition modify {S} (f : S → S) : M S unit := λ s, (Returns tt, f s).

Declare Scope transform_scope.
Delimit Scope transform_scope with transform.
Notation "'let!' x ':=' c 'in' k" := (bind c (λ x, k))
  (at level 10, x name, c at level 100, k at level 200,
   format "'[v' 'let!'  x  ':='  c  'in' '/' k ']'") : transform_scope.
Notation "c ';;'' k" := (bind c (λ _, k))
  (at level 100, k at level 200, right associativity,
   format "'[v' c  ';;'' '/' k ']'") : transform_scope.
Open Scope transform_scope.

(** [yulAssert(condition, message)] *)
Definition yulAssert {S} (condition : bool) (message : string) : M S unit :=
  if condition then ret tt else throw (YulAssertion message).

(** A range-based [for] over a container. *)
Fixpoint for_each {S A} (l : list A) (body : A → M S unit) : M S unit :=
  match l with
  | [] => ret tt
  | x :: l' => body x ;;' for_each l' body
  end.

(** ** The SSA program (external input)

    The graph, its liveness and the scopes are declared in headers of their
    own; only what the transform reads is kept. *)

(** Modelled from the spec: [Scope::Function] is declared outside the
    transform's own file. The spec speaks of a function identity and its
    source name; the transform reads the name and uses the address as the key
    of the label table. *)
Record Function := mkFunction {
  address : FunctionAddress;
  name : string
}.

(** Modelled from the spec: [SSACFG::Operation], declared with the graph, is
    an ordered list of inputs, an ordered list of outputs and a description
    of the effect; the effect is left out, nothing in the file reads it. *)
Record Operation := mkOperation {
  outputs : list ValueId;
  inputs : list ValueId
}.

(** Modelled from the spec: a block of the graph, declared with the graph,
    holds its operations in order. *)
Record BasicBlock := mkBasicBlock {
  operations : list Operation
}.

(** [langutil::DebugData], of which the optional [astID], an [int64_t], is
    read. *)
Record DebugData := mkDebugData {
  astID : option Z
}.

(** Modelled from the spec: [SSACFG], declared in a header of its own, with
    the members the file reads: the function of the graph if it is the graph
    of one, the arguments and returns (read for their number), the optional
    debug data, and the blocks, indexed by block identity. *)
Record SSACFG := mkSSACFG {
  function : option Function;
  arguments : list ValueId;
  returns : list ValueId;
  debugData : option DebugData;
  blocks : list BasicBlock
}.

Definition numBlocks (_cfg : SSACFG) : nat := length (blocks _cfg).

(** Modelled from the spec: [SSACFGLiveness], declared in a header of its own,
    returns per block an ordered sequence of live-out sets, one per
    operation ([operationsLiveOut]). How it is computed is outside this
    file; the oracle is taken as given. *)
Record SSACFGLiveness := mkSSACFGLiveness {
  operationsLiveOut : BlockId → list (gset ValueId)
}.

(** Modelled from the spec: [ControlFlow], what the graph builder returns:
    the main graph and the graphs of the functions, in the order the driver
    iterates over them. *)
Record ControlFlow := mkControlFlow {
  mainGraph : SSACFG;
  functionGraphMapping : list (Function * SSACFG)
}.

(** Modelled from the spec: the naming policy of [AbstractAssembly]: never
    name labels, name them and assert that names are unique, name them and
    allow duplicates. *)
Inductive UseNamedLabels :=
  | Never
  | YesAndForceUnique
  | Yes.

#[global] Instance UseNamedLabels_eq_dec : EqDecision UseNamedLabels.
Proof. solve_decision. Defined.

(** Modelled from the spec: [StackTooDeepError] is declared outside the
    transform's own file; the spec describes a Depth-Limit Violation as a record
    naming the unit and the program point affected. *)
Record StackTooDeepError := mkStackTooDeepError {
  violationUnit : string;
  violationPoint : nat
}.

(** ** The transform object

    The class is declared in the header of the file; its members are those
    the file uses. [m_builtinContext] is stored and never read, and is left
    out. [m_currentBlock] has no value before the first traversal. *)

(** Modelled from the spec: Block Metadata, per block an optional label and
    an optional required-entry stack layout. *)
Record BlockData := mkBlockData {
  label : option LabelID;
  stackIn : option (list StackSlot)
}.

Record SSAEVMCodeTransform := mkTransform {
  m_cfg : SSACFG;
  m_liveness : SSACFGLiveness;
  m_functionLabels : gmap FunctionAddress LabelID;
  m_blockData : list BlockData;
  m_stack : list StackSlot;
  m_stackErrors : list StackTooDeepError;
  m_currentBlock : option BlockId
}.

(** The state a member function runs in. *)
Record State := mkState {
  world : World;
  this : SSAEVMCodeTransform
}.

Definition set_requests (f : list Request → list Request) (a : Assembly) : Assembly :=
  {| requests := f (requests a); nextLabel := nextLabel a |}.

Definition set_assembly (f : Assembly → Assembly) (w : World) : World :=
  {| assembly := f (assembly w); cout := cout w |}.

Definition set_cout (f : list CoutLine → list CoutLine) (w : World) : World :=
  {| assembly := assembly w; cout := f (cout w) |}.

Definition set_world (f : World → World) (s : State) : State :=
  {| world := f (world s); this := this s |}.

Definition set_this (f : SSAEVMCodeTransform → SSAEVMCodeTransform) (s : State) : State :=
  {| world := world s; this := f (this s) |}.

Definition set_m_stack (f : list StackSlot → list StackSlot)
    (t : SSAEVMCodeTransform) : SSAEVMCodeTransform :=
  {| m_cfg := m_cfg t; m_liveness := m_liveness t;
     m_functionLabels := m_functionLabels t; m_blockData := m_blockData t;
     m_stack := f (m_stack t); m_stackErrors := m_stackErrors t;
     m_currentBlock := m_currentBlock t |}.

Definition set_m_blockData (f : list BlockData → list BlockData)
    (t : SSAEVMCodeTransform) : SSAEVMCodeTransform :=
  {| m_cfg := m_cfg t; m_liveness := m_liveness t;
     m_functionLabels := m_functionLabels t; m_blockData := f (m_blockData t);
     m_stack := m_stack t; m_stackErrors := m_stackErrors t;
     m_currentBlock := m_currentBlock t |}.

Definition set_m_currentBlock (b : option BlockId)
    (t : SSAEVMCodeTransform) : SSAEVMCodeTransform :=
  {| m_cfg := m_cfg t; m_liveness := m_liveness t;
     m_functionLabels := m_functionLabels t; m_blockData := m_blockData t;
     m_stack := m_stack t; m_stackErrors := m_stackErrors t;
     m_currentBlock := b |}.

(** *** Requests to the assembly, in a world *)

Definition emit (r : Request) (w : World) : World :=
  set_assembly (set_requests (λ l, l ++ [r])) w.

Definition fresh_label (r : Request) (w : World) : LabelID * World :=
  (nextLabel (assembly w),
   {| assembly := {| requests := requests (assembly w) ++ [r];
                     nextLabel := S (nextLabel (assembly w)) |};
      cout := cout w |}).

Definition world_newLabelId : M World LabelID :=
  λ w, let (l, w') := fresh_label NewLabelId w in (Returns l, w').

Definition world_namedLabel (_name : string) (_params _returns : nat)
    (_sourceID : option N) : M World LabelID :=
  λ w, let (l, w') := fresh_label (NamedLabel _name _params _returns _sourceID) w in
       (Returns l, w').

(** A computation on the world, run from inside a member function. *)
Definition in_world {A} (c : M World A) : M State A :=
  λ s, let (o, w') := c (world s) in (o, {| world := w'; this := this s |}).

Definition newLabelId : M State LabelID := in_world world_newLabelId.
Definition appendLabel (l : LabelID) : M State unit :=
  modify (set_world (emit (AppendLabel l))).
Definition setStackHeight (height : Z) : M State unit :=
  modify (set_world (emit (SetStackHeight height))).
Definition appendInstruction (i : Instruction) : M State unit :=
  modify (set_world (emit (AppendInstruction i))).
Definition print (line : CoutLine) : M State unit :=
  modify (set_world (set_cout (λ l, l ++ [line]))).

(** ** Member functions *)

(** Modelled from the spec: [blockData(_block)], declared in the header,
    yields the metadata of the block, which the spec has indexable by block
    identity; an identity outside the table is a fault. *)
Definition blockData (_block : BlockId) : M State BlockData :=
  λ s, match m_blockData (this s) !! _block with
       | Some d => (Returns d, s)
       | None => (Throws OutOfRange, s)
       end.

(** Assignment through the reference [blockData(_block)] returns. *)
Definition set_blockData (_block : BlockId) (d : BlockData) : M State unit :=
  modify (set_this (set_m_blockData (λ l, <[_block := d]> l))).

(** Modelled from the spec: [m_cfg.block(_block)], declared with the graph,
    yields the block of the identity; an identity outside the graph is a
    fault. *)
Definition cfg_block (_block : BlockId) : M State BasicBlock :=
  λ s, match blocks (m_cfg (this s)) !! _block with
       | Some b => (Returns b, s)
       | None => (Throws OutOfRange, s)
       end.

(** [getFunctionLabel]: [std::map::at] throws on a missing key. *)
Definition getFunctionLabel (_function : Function) : M State LabelID :=
  λ s, match m_functionLabels (this s) !! address _function with
       | Some l => (Returns l, s)
       | None => (Throws OutOfRange, s)
       end.

(** [pop]: the assertion comes first, then the model, then the instruction. *)
Definition pop : M State unit :=
  let! stack := gets (λ s, m_stack (this s)) in
  yulAssert (negb (bool_decide (stack = []))) "" ;;'
  modify (set_this (set_m_stack (λ v, removelast v))) ;;'
  appendInstruction POP.

(** [std::swap(v[i], v.back())] on a vector. *)
Definition swap_with_back (i : nat) (v : list StackSlot) : list StackSlot :=
  match v !! i, last v with
  | Some a, Some b => <[length v - 1 := a]> (<[i := b]> v)
  | _, _ => v
  end.

(** [swap]: the instruction is built and appended first, then the assertion
    is checked, then the model is updated. [m_stack.size() - _depth - 1]
    does not wrap once the assertion has passed. *)
Definition swap (_depth : nat) : M State unit :=
  let! instruction := pure_call (swapInstruction (static_cast_unsigned _depth)) in
  appendInstruction instruction ;;'
  let! stack := gets (λ s, m_stack (this s)) in
  yulAssert (bool_decide (_depth < length stack)) "" ;;'
  modify (set_this (set_m_stack (swap_with_back (length stack - _depth - 1)))).

(** Modelled from the spec: [ScopedSaveAndRestore] is a guard of libsolutil,
    declared outside the transform's own file, and the spec is silent on it;
    it is modelled by what its name and its use in
    [ScopedSaveAndRestore stackSave{m_stack, {}}] say: the variable is set
    to the given value for the rest of the scope, and the saved value is put
    back when the scope is left, by return or by a fault. *)
Definition ScopedSaveAndRestore_m_stack {A} (_value : list StackSlot)
    (scope : M State A) : M State A :=
  λ s, let saved := m_stack (this s) in
       let (o, s') := scope (set_this (set_m_stack (λ _, _value)) s) in
       (o, set_this (set_m_stack (λ _, saved)) s').

(** [std::set::insert]: the set afterwards and whether the element was new. *)
Definition set_insert (x : string) (s : gset string) : gset string * bool :=
  ({[x]} ∪ s, bool_decide (x ∉ s)).

(** The initializer of [m_functionLabels] (the lambda of the constructor).
    The debug id is an [optional<int64_t>] and [namedLabel] takes an
    [optional<size_t>]. *)
Definition functionLabels_init (_useNamedLabelsForFunctions : UseNamedLabels)
    (_cfg : SSACFG) : M World (gmap FunctionAddress LabelID) :=
  let functionLabels : gmap FunctionAddress LabelID := ∅ in
  match function _cfg with
  | Some f =>
      let assignedFunctionNames : gset string := ∅ in
      let nameAlreadySeen := negb (snd (set_insert (name f) assignedFunctionNames)) in
      (if bool_decide (_useNamedLabelsForFunctions = YesAndForceUnique)
       then yulAssert (negb nameAlreadySeen) ""
       else ret tt) ;;'
      let useNamedLabel :=
        bool_decide (_useNamedLabelsForFunctions ≠ Never) && negb nameAlreadySeen in
      let! l :=
        (if useNamedLabel
         then world_namedLabel (name f) (length (arguments _cfg)) (length (returns _cfg))
                (int64_to_size_t <$>
                   match debugData _cfg with Some d => astID d | None => None end)
         else world_newLabelId) in
      ret (<[address f := l]> functionLabels)
  | None => ret functionLabels
  end.

(** The constructor: the label table, then one empty [BlockData] per block. *)
Definition SSAEVMCodeTransform_new (_useNamedLabelsForFunctions : UseNamedLabels)
    (_cfg : SSACFG) (_liveness : SSACFGLiveness) : M World SSAEVMCodeTransform :=
  let! functionLabels := functionLabels_init _useNamedLabelsForFunctions _cfg in
  ret {| m_cfg := _cfg; m_liveness := _liveness;
         m_functionLabels := functionLabels;
         m_blockData := replicate (numBlocks _cfg) {| label := None; stackIn := None |};
         m_stack := []; m_stackErrors := []; m_currentBlock := None |}.

(** A member function called on an object from outside: it runs in the
    caller's world and leaves the object as the callee changed it. *)
Definition call_on {A} (t : SSAEVMCodeTransform) (c : M State A)
    : M World (A * SSAEVMCodeTransform) :=
  λ w, match c {| world := w; this := t |} with
       | (Returns a, s) => (Returns (a, this s), world s)
       | (Throws f, s) => (Throws f, world s)
       end.

(** *** The steps of the block traversal *)

(** Lines 172-177: the label of the block is allocated on first use and
    appended. *)
Definition defineLabel (_block : BlockId) : M State unit :=
  let! d := blockData _block in
  let! l :=
    (match label d with
     | Some l => ret l
     | None =>
         let! l := newLabelId in
         set_blockData _block {| label := Some l; stackIn := stackIn d |} ;;'
         ret l
     end) in
  appendLabel l.

(** Lines 179-185: the entry layout must be there; it becomes the stack. *)
Definition loadStackIn (_block : BlockId) : M State unit :=
  let! d := blockData _block in
  match stackIn d with
  | Some layout => modify (set_this (set_m_stack (λ _, layout)))
  | None => throw (YulAssertion ("No starting layout for block b" +:+ pretty _block))
  end.

(** Line 186. *)
Definition reportStackHeight : M State unit :=
  let! stack := gets (λ s, m_stack (this s)) in
  setStackHeight (static_cast_int (length stack)).

(** Line 187. The line is kept with the stack it shows; the lookups that
    [stackToString] makes to write the slots are taken to succeed. *)
Definition printGenerateBlock (_block : BlockId) : M State unit :=
  let! stack := gets (λ s, m_stack (this s)) in
  print (GenerateBlock _block stack).

(** Lines 172-187, in order. *)
Definition enterBlock (_block : BlockId) : M State unit :=
  defineLabel _block ;;'
  loadStackIn _block ;;'
  reportStackHeight ;;'
  printGenerateBlock _block.

(** ** The traversal, for any treatment of operations and functions

    The block traversal calls [operator()(Operation, liveOut)] and the driver
    calls [operator()(Function, SSACFG)]. The section takes the two as
    variables, so that what is proved of the traversal and of the driver does
    not rest on their bodies; the bodies of the file are plugged in below.
    The liveness oracle is built by [SSACFGLiveness], outside this file. *)

Section Traversal.

Variable onOperation : Operation → gset ValueId → M State unit.
Variable onFunction : Function → SSACFG → M State unit.
Variable SSACFGLiveness_new : SSACFG → SSACFGLiveness.

(** Lines 189-191: the counts are compared, then the operations are
    visited together with their live-out sets ([ranges::zip_view]). *)
Definition processOperations (_block : BlockId) : M State unit :=
  let! b := cfg_block _block in
  let! liveness := gets (λ s, m_liveness (this s)) in
  yulAssert
    (bool_decide (length (operations b) = length (operationsLiveOut liveness _block))) "" ;;'
  for_each (zip (operations b) (operationsLiveOut liveness _block))
    (λ p, onOperation (fst p) (snd p)).

(** [operator()(SSACFG::BlockId)] *)
Definition traverseBlock (_block : BlockId) : M State unit :=
  modify (set_this (set_m_currentBlock (Some _block))) ;;'
  ScopedSaveAndRestore_m_stack []
    (enterBlock _block ;;'
     processOperations _block).

(** Line 83: [blockData(BlockId{0}).stackIn = std::make_optional(...{})]. *)
Definition forceEmptyEntry : M State unit :=
  let! d := blockData 0 in
  set_blockData 0 {| label := label d; stackIn := Some [] |}.

(** Lines 73-84 of [run]: the transform of the main graph, after its run. *)
Definition compileMain (controlFlow : ControlFlow)
    (_useNamedLabelsForFunctions : UseNamedLabels) : M World SSAEVMCodeTransform :=
  let liveness := SSACFGLiveness_new (mainGraph controlFlow) in
  let! mainCodeTransform :=
    SSAEVMCodeTransform_new _useNamedLabelsForFunctions (mainGraph controlFlow) liveness in
  let! r := call_on mainCodeTransform (forceEmptyEntry ;;' traverseBlock 0) in
  ret (snd r).

(** Lines 92-100 of [run]: the transform of one function, after its run. *)
Definition compileFunction (_useNamedLabelsForFunctions : UseNamedLabels)
    (entry : Function * SSACFG) : M World SSAEVMCodeTransform :=
  let functionLiveness := SSACFGLiveness_new (snd entry) in
  let! functionCodeTransform :=
    SSAEVMCodeTransform_new _useNamedLabelsForFunctions (snd entry) functionLiveness in
  let! r := call_on functionCodeTransform (onFunction (fst entry) (snd entry)) in
  ret (snd r).

(** Lines 90-103 of [run]: the loop over the functions, [stackErrors]
    being the accumulator. *)
Fixpoint compileFunctions (_useNamedLabelsForFunctions : UseNamedLabels)
    (mapping : list (Function * SSACFG)) (stackErrors : list StackTooDeepError)
    : M World (list StackTooDeepError) :=
  match mapping with
  | [] => ret stackErrors
  | entry :: mapping' =>
      let! functionCodeTransform := compileFunction _useNamedLabelsForFunctions entry in
      compileFunctions _useNamedLabelsForFunctions mapping'
        (if negb (bool_decide (m_stackErrors functionCodeTransform = []))
         then stackErrors ++ m_stackErrors functionCodeTransform
         else stackErrors)
  end.

(** [SSAEVMCodeTransform::run], from the control flow the graph builder made. *)
Definition run_with (controlFlow : ControlFlow)
    (_useNamedLabelsForFunctions : UseNamedLabels) : M World (list StackTooDeepError) :=
  let! mainCodeTransform := compileMain controlFlow _useNamedLabelsForFunctions in
  let stackErrors :=
    if negb (bool_decide (m_stackErrors mainCodeTransform = []))
    then m_stackErrors mainCodeTransform
    else [] in
  compileFunctions _useNamedLabelsForFunctions (functionGraphMapping controlFlow) stackErrors.

(** *** What the driver is meant to compute, in the words of the spec

    Every unit is compiled in turn, the entry unit first, and the
    violations of the units are put one after the other. *)

Fixpoint compileEach (_useNamedLabelsForFunctions : UseNamedLabels)
    (mapping : list (Function * SSACFG)) : M World (list SSAEVMCodeTransform) :=
  match mapping with
  | [] => ret []
  | entry :: mapping' =>
      let! t := compileFunction _useNamedLabelsForFunctions entry in
      let! ts := compileEach _useNamedLabelsForFunctions mapping' in
      ret (t :: ts)
  end.

Definition compileUnits (controlFlow : ControlFlow)
    (_useNamedLabelsForFunctions : UseNamedLabels) : M World (list SSAEVMCodeTransform) :=
  let! t := compileMain controlFlow _useNamedLabelsForFunctions in
  let! ts := compileEach _useNamedLabelsForFunctions (functionGraphMapping controlFlow) in
  ret (t :: ts).

Definition allViolations (units : list SSAEVMCodeTransform) : list StackTooDeepError :=
  concat (map m_stackErrors units).

(** Operation [i] with live-out record [i], for [i] from [from] on, [count]
    of them. *)
Fixpoint processByIndex (ops : list Operation) (liveOuts : list (gset ValueId))
    (from count : nat) : M State unit :=
  match count with
  | 0 => ret tt
  | S count' =>
      match ops !! from, liveOuts !! from with
      | Some op, Some liveOut =>
          onOperation op liveOut ;;' processByIndex ops liveOuts (S from) count'
      | _, _ => ret tt
      end
  end.

End Traversal.

(** ** The bodies of the file *)

(** [operator()(SSACFG::Operation const&, std::set<SSACFG::ValueId> const&)]:
    the body is empty. *)
Definition operator_Operation (_operation : Operation) (_liveOut : gset ValueId)
    : M State unit :=
  ret tt.

(** [operator()(Scope::Function const&, SSACFG const&)]: the body is empty. *)
Definition operator_Function (_function : Function) (_functionGraph : SSACFG)
    : M State unit :=
  ret tt.

(** [createStackTop], [bringUpSlot], [createExactStack]: the bodies are empty. *)
Definition createStackTop (_targetTop : list StackSlot) (_liveOut : gset ValueId)
    : M State unit :=
  ret tt.

Definition bringUpSlot (_slot : StackSlot) : M State unit := ret tt.

Definition createExactStack (_target : list StackSlot) : M State unit := ret tt.

(** [operator()(SSACFG::BlockId)] *)
Definition operator_BlockId : BlockId → M State unit :=
  traverseBlock operator_Operation.

(** [SSAEVMCodeTransform::run] *)
Definition run (SSACFGLiveness_new : SSACFG → SSACFGLiveness) (controlFlow : ControlFlow)
    (_useNamedLabelsForFunctions : UseNamedLabels) : M World (list StackTooDeepError) :=
  run_with operator_Operation operator_Function SSACFGLiveness_new controlFlow
    _useNamedLabelsForFunctions.

(** ** Debug output

    The helpers that turn values, slots and stacks into text. *)

(** Modelled from the spec: [SSACFG::ValueInfo], declared with the graph, is
    a variant over an unreachable value, a literal with its constant, and
    the ordinary values (every other alternative, which the visitor of
    [ssaCfgVarToString] treats alike). *)
Inductive ValueInfo :=
  | UnreachableValue
  | LiteralValue (value : N)
  | OrdinaryValue.

(** [std::numeric_limits<size_t>::max()], for a [size_t] of 64 bits. *)
Definition size_t_max : N := (2 ^ 64 - 1)%N.

Section DebugOutput.

(** [_ssacfg.valueInfo(_var)] is declared with the graph and
    [util::joinHumanReadable] in libsolutil; both are taken as given. *)
Variable valueInfo : SSACFG → ValueId → ValueInfo.
Variable joinHumanReadable : list string → string.

(** [ssaCfgVarToString]: the sentinel is recognised before the graph is
    asked for the value; numbers are written in decimal. *)
Definition ssaCfgVarToString (_ssacfg : SSACFG) (_var : ValueId) : string :=
  if bool_decide (N.of_nat _var = size_t_max) then "INVALID"
  else
    match valueInfo _ssacfg _var with
    | UnreachableValue => "[unreachable]"
    | LiteralValue value => pretty value
    | OrdinaryValue => "v" +:+ pretty _var
    end.

(** [stackSlotToString], a member function that reads [m_cfg]. *)
Definition stackSlotToString (t : SSAEVMCodeTransform) (_slot : StackSlot) : string :=
  match _slot with
  | ValueSlot _value => ssaCfgVarToString (m_cfg t) _value
  | LabelSlot _label => "LABEL[" +:+ pretty _label +:+ "]"
  end.

(** [stackToString] *)
Definition stackToString (t : SSAEVMCodeTransform) (_stack : list StackSlot) : string :=
  "[" +:+ joinHumanReadable (stackSlotToString t <$> _stack) +:+ "]".

(** The text of a line of the traversal (line 187). *)
Definition coutText (t : SSAEVMCodeTransform) (line : CoutLine) : string :=
  match line with
  | GenerateBlock b stack => "Generate block b" +:+ pretty b +:+ ": " +:+ stackToString t stack
  end.

End DebugOutput.

(** * Inputs and statements

    The states and programs the properties are tried on, and the claim on
    [swap] in the way it is worded. *)

(** The state [pop] leaves when it succeeds on a stack [rest ++ [top]]. *)
Definition popped (rest : list StackSlot) (s : State) : State :=
  set_world (emit (AppendInstruction POP)) (set_this (set_m_stack (λ _, rest)) s).

(** A transform whose working stack is [stack], over an empty graph, in a
    world where nothing has been emitted. *)
Definition state_of_stack (stack : list StackSlot) : State :=
  {| world := {| assembly := {| requests := []; nextLabel := 0 |}; cout := [] |};
     this := {| m_cfg := {| function := None; arguments := []; returns := [];
                            debugData := None; blocks := [] |};
                m_liveness := {| operationsLiveOut := λ _, [] |};
                m_functionLabels := ∅; m_blockData := [];
                m_stack := stack; m_stackErrors := []; m_currentBlock := None |} |}.

(** The state after the instruction of [swap] has been appended. *)
Definition swap_requested (_depth : nat) (s : State) : State :=
  set_world (emit (AppendInstruction (SWAP (static_cast_unsigned _depth)))) s.

(** The requests a computation added to the sink. *)
Definition requests_added (before after : State) : list Request :=
  drop (length (requests (assembly (world before)))) (requests (assembly (world after))).

(** The instructions among the requests the sink has received. *)
Definition instructions (l : list Request) : list Instruction :=
  omap (λ r, match r with AppendInstruction i => Some i | _ => None end) l.


(** The requests that define the label of a block: the label it has, or a
    fresh one. *)
Definition labelRequests (d : BlockData) (a : Assembly) : list Request :=
  match label d with
  | Some l => [AppendLabel l]
  | None => [NewLabelId; AppendLabel (nextLabel a)]
  end.

(** The state in which the scope of the traversal is entered: the current
    block is recorded and the stack is the empty one of the guard. *)
Definition scopeEntry (_block : BlockId) (s : State) : State :=
  set_this (set_m_stack (λ _, [])) (set_this (set_m_currentBlock (Some _block)) s).

(** The state when the scope is left: the stack of the caller is back. *)
Definition scopeExit (caller s' : State) : State :=
  set_this (set_m_stack (λ _, m_stack (this caller))) s'.

(** A transform over a graph of one block without operations, as the
    constructor leaves it, in a world where nothing has been emitted. *)
Definition one_block_state : State :=
  {| world := {| assembly := {| requests := []; nextLabel := 0 |}; cout := [] |};
     this := {| m_cfg := {| function := None; arguments := []; returns := [];
                            debugData := None;
                            blocks := [ {| operations := [] |} ] |};
                m_liveness := {| operationsLiveOut := λ _, [] |};
                m_functionLabels := ∅;
                m_blockData := [ {| label := None; stackIn := None |} ];
                m_stack := []; m_stackErrors := []; m_currentBlock := None |} |}.

(** A transform over a graph of one block with two operations, with an
    established entry layout of two slots. *)
Definition two_operation_state : State :=
  {| world := {| assembly := {| requests := []; nextLabel := 0 |}; cout := [] |};
     this := {| m_cfg := {| function := None; arguments := []; returns := [];
                            debugData := None;
                            blocks := [ {| operations :=
                                             [ {| outputs := [2]; inputs := [0; 1] |};
                                               {| outputs := [3]; inputs := [2] |} ] |} ] |};
                m_liveness := {| operationsLiveOut := λ _, [ {[2]}; {[3]} ] |};
                m_functionLabels := ∅;
                m_blockData := [ {| label := None;
                                    stackIn := Some [ValueSlot 0; ValueSlot 1] |} ];
                m_stack := []; m_stackErrors := []; m_currentBlock := None |} |}.

(** The world before anything is emitted. *)
Definition empty_world : World :=
  {| assembly := {| requests := []; nextLabel := 0 |}; cout := [] |}.

(** An oracle with one live-out record, [{5}], for every block. *)
Definition live_5 (_ : SSACFG) : SSACFGLiveness :=
  {| operationsLiveOut := λ _, [ {[5]} ] |}.

(** An oracle without records. *)
Definition no_records (_ : SSACFG) : SSACFGLiveness :=
  {| operationsLiveOut := λ _, [] |}.

(** One operation without inputs and with one output, value 5. *)
Definition produce_5 : Operation := {| outputs := [5]; inputs := [] |}.

(** A program whose entry block holds this operation only. *)
Definition one_operation_program : ControlFlow :=
  {| mainGraph := {| function := None; arguments := []; returns := [];
                     debugData := None;
                     blocks := [ {| operations := [produce_5] |} ] |};
     functionGraphMapping := [] |}.

(** Two functions of two arguments, both named f. *)
Definition first_f : Function := {| address := 1; name := "f" |}.
Definition second_f : Function := {| address := 2; name := "f" |}.

(** The graph of a function of two arguments: one block, no operation. *)
Definition graph_of (f : Function) : SSACFG :=
  {| function := Some f; arguments := [0; 1]; returns := [];
     debugData := None; blocks := [ {| operations := [] |} ] |}.

(** A program with an empty entry block and the two functions. *)
Definition two_functions_named_f : ControlFlow :=
  {| mainGraph := {| function := None; arguments := []; returns := [];
                     debugData := None; blocks := [ {| operations := [] |} ] |};
     functionGraphMapping := [ (first_f, graph_of first_f); (second_f, graph_of second_f) ] |}.

(** A treatment of operations and of functions that records one violation
    per operation and per function, to try the driver on. *)
Definition record_violation (where_ : string) (point : nat) : M State unit :=
  modify (set_this (λ t,
    {| m_cfg := m_cfg t; m_liveness := m_liveness t;
       m_functionLabels := m_functionLabels t; m_blockData := m_blockData t;
       m_stack := m_stack t;
       m_stackErrors := m_stackErrors t
                          ++ [ {| violationUnit := where_; violationPoint := point |} ];
       m_currentBlock := m_currentBlock t |})).

Definition recording_onOperation (op : Operation) (_ : gset ValueId) : M State unit :=
  record_violation "main" (length (outputs op)).

Definition recording_onFunction (f : Function) (_ : SSACFG) : M State unit :=
  record_violation (name f) (address f).

(** A program with the operation that produces 5 in its entry block and the
    two functions. *)
Definition program_with_functions : ControlFlow :=
  {| mainGraph := mainGraph one_operation_program;
     functionGraphMapping := functionGraphMapping two_functions_named_f |}.

(** The oracle that has the record [{5}] for the main graph only. *)
Definition live_5_in_main (g : SSACFG) : SSACFGLiveness :=
  match function g with
  | None => live_5 g
  | Some _ => no_records g
  end.

(** The slots whose text tells which slot it is: labels, the sentinel, and
    the ordinary values. *)
Definition identifiable (valueInfo : SSACFG → ValueId → ValueInfo)
    (t : SSAEVMCodeTransform) (slot : StackSlot) : Prop :=
  match slot with
  | LabelSlot _ => True
  | ValueSlot v => N.of_nat v = size_t_max ∨ valueInfo (m_cfg t) v = OrdinaryValue
  end.

(** A text that starts with a decimal digit. *)
Definition starts_with_digit (s : string) : Prop :=
  match s with
  | String c _ => c ∈ String.list_ascii_of_string "0123456789"
  | EmptyString => False
  end.

(** The kinds of text a slot can have, a literal with its constant. *)
Inductive SlotKind :=
  | LabelKind
  | InvalidKind
  | UnreachableKind
  | LiteralKind (value : N)
  | OrdinaryKind.

(** The kind of text [stackSlotToString] chooses for a slot. *)
Definition slotKind (valueInfo : SSACFG → ValueId → ValueInfo)
    (t : SSAEVMCodeTransform) (slot : StackSlot) : SlotKind :=
  match slot with
  | LabelSlot _ => LabelKind
  | ValueSlot v =>
      if bool_decide (N.of_nat v = size_t_max) then InvalidKind
      else
        match valueInfo (m_cfg t) v with
        | UnreachableValue => UnreachableKind
        | LiteralValue value => LiteralKind value
        | OrdinaryValue => OrdinaryKind
        end
  end.

(** A graph all of whose values are the literal 7, and one all of whose
    values are ordinary. *)
Definition all_literal_7 (_ : SSACFG) (_ : ValueId) : ValueInfo := LiteralValue 7.
Definition all_ordinary (_ : SSACFG) (_ : ValueId) : ValueInfo := OrdinaryValue.

(** What [swap(_depth)] followed by [pop] leaves of a stack: the slot
    [_depth] below the top now holds the former top, the top is gone. *)
Definition dropped_below (_depth : nat) (v : list StackSlot) : list StackSlot :=
  removelast (swap_with_back (length v - _depth - 1) v).

(** The metadata of the blocks after a traversal of [_block]: the block gets
    the next label of the sink if it has none, nothing else changes. *)
Definition blockData_after (_block : BlockId) (s : State) : list BlockData :=
  match m_blockData (this s) !! _block with
  | Some d =>
      match label d with
      | Some _ => m_blockData (this s)
      | None =>
          <[_block := {| label := Some (nextLabel (assembly (world s)));
                         stackIn := stackIn d |}]> (m_blockData (this s))
      end
  | None => m_blockData (this s)
  end.

(** A graph with debug data, and a function of it; the debug id is
    negative. *)
Definition graph_with_debug_data : SSACFG :=
  {| function := Some first_f; arguments := [0; 1]; returns := [2];
     debugData := Some {| astID := Some (-1)%Z |};
     blocks := [ {| operations := [] |} ] |}.

(** * Properties *)

(** ** The monad *)

Lemma bind_Returns {S A B} (c : M S A) (k : A → M S B) s a s' :
  c s = (Returns a, s') → bind c k s = k a s'.
Proof. intros H. unfold bind. by rewrite H. Qed.

Lemma bind_Throws {S A B} (c : M S A) (k : A → M S B) s f s' :
  c s = (Throws f, s') → bind c k s = (Throws f, s').
Proof. intros H. unfold bind. by rewrite H. Qed.

(** ** Vectors: the last slot and the exchange with it *)

Lemma removelast_snoc {A} (l : list A) (x : A) : removelast (l ++ [x]) = l.
Proof. apply removelast_last. Qed.

Lemma snoc_cases {A} (l : list A) : l = [] ∨ ∃ rest top, l = rest ++ [top].
Proof.
  destruct l as [|x l] using rev_ind; [by left|right]. by exists l, x.
Qed.

Section SwapWithBack.

Variable v : list StackSlot.
Variable depth : nat.
Hypothesis in_range : depth < length v.

Local Abbreviation i := (length v - depth - 1) (only parsing).

Lemma swap_with_back_length : length (swap_with_back i v) = length v.
Proof.
  unfold swap_with_back.
  destruct (v !! i), (last v); rewrite ?length_insert; reflexivity.
Qed.

Lemma swap_with_back_defined :
  ∃ a b, v !! i = Some a ∧ v !! (length v - 1) = Some b ∧
         swap_with_back i v = <[length v - 1 := a]> (<[i := b]> v).
Proof.
  assert (Hi : i < length v) by lia.
  destruct (lookup_lt_is_Some_2 v i Hi) as [a Ha].
  assert (Hl : length v - 1 < length v) by lia.
  destruct (lookup_lt_is_Some_2 v _ Hl) as [b Hb].
  exists a, b. split; [done|split; [done|]].
  unfold swap_with_back. rewrite Ha.
  rewrite last_lookup.
  replace (pred (length v)) with (length v - 1) by lia.
  by rewrite Hb.
Qed.

(** The top slot now holds what was [depth] below it. *)
Lemma swap_with_back_top :
  swap_with_back i v !! (length v - 1) = v !! i.
Proof.
  destruct swap_with_back_defined as (a & b & Ha & Hb & ->).
  rewrite list_lookup_insert_eq; [done|]. rewrite length_insert. lia.
Qed.

(** The slot [depth] below the top now holds what was on top. *)
Lemma swap_with_back_below :
  swap_with_back i v !! i = v !! (length v - 1).
Proof.
  destruct swap_with_back_defined as (a & b & Ha & Hb & ->).
  destruct (decide (i = length v - 1)) as [Heq|Hne].
  - rewrite Heq in *. rewrite list_lookup_insert_eq; [congruence|].
    rewrite length_insert. lia.
  - rewrite list_lookup_insert_ne by done.
    rewrite list_lookup_insert_eq; [done|]. lia.
Qed.

(** Every other slot is where it was. *)
Lemma swap_with_back_other (j : nat) :
  j ≠ i → j ≠ length v - 1 → swap_with_back i v !! j = v !! j.
Proof.
  intros Hji Hjl.
  destruct swap_with_back_defined as (a & b & Ha & Hb & ->).
  rewrite !list_lookup_insert_ne; done.
Qed.

End SwapWithBack.

(** ** [pop] *)

Lemma pop_empty (s : State) :
  m_stack (this s) = [] → pop s = (Throws (YulAssertion ""), s).
Proof.
  intros H. unfold pop, bind, gets. rewrite H. reflexivity.
Qed.

Lemma pop_snoc (s : State) rest top :
  m_stack (this s) = rest ++ [top] → pop s = (Returns tt, popped rest s).
Proof.
  intros H. unfold pop, bind, gets. rewrite H.
  rewrite bool_decide_false by (by destruct rest).
  cbn. unfold popped, set_this, set_m_stack. cbn.
  rewrite H, removelast_snoc. reflexivity.
Qed.

(** What [pop] does, by the stack it is called on. *)
Lemma pop_cases (s : State) :
  (m_stack (this s) = [] ∧ pop s = (Throws (YulAssertion ""), s)) ∨
  (∃ rest top,
      m_stack (this s) = rest ++ [top] ∧
      pop s = (Returns tt, popped rest s) ∧
      m_stack (this (popped rest s)) = rest ∧
      requests (assembly (world (popped rest s)))
        = requests (assembly (world s)) ++ [AppendInstruction POP]).
Proof.
  destruct (snoc_cases (m_stack (this s))) as [Hnil|(rest & top & Hs)].
  - left. split; [done|]. by apply pop_empty.
  - right. exists rest, top. split; [done|]. split; [by eapply pop_snoc|].
    split; reflexivity.
Qed.

(** ** [swap] *)

Lemma static_cast_unsigned_small (n : nat) :
  (N.of_nat n < 2 ^ 32)%N → static_cast_unsigned n = N.of_nat n.
Proof. intros H. unfold static_cast_unsigned. by apply N.mod_small. Qed.

(** A depth from 1 to 16 is the number of the swap that is asked for. *)
Lemma static_cast_unsigned_addressable (_depth : nat) :
  1 ≤ _depth ≤ 16 →
  static_cast_unsigned _depth = N.of_nat _depth ∧
  (1 ≤ static_cast_unsigned _depth ≤ 16)%N.
Proof.
  intros H.
  assert (static_cast_unsigned _depth = N.of_nat _depth) as ->; [|lia].
  apply static_cast_unsigned_small.
  apply N.le_lt_trans with 16%N; [lia|reflexivity].
Qed.

(** Outside 1..16 the instruction is not built: [swap] ends in the fault of
    [swapInstruction] before anything is appended or changed. *)
Lemma swap_refused (_depth : nat) (s : State) :
  ¬ (1 ≤ static_cast_unsigned _depth ≤ 16)%N →
  swap _depth s = (Throws InvalidOpcode, s).
Proof.
  intros H. unfold swap, bind, pure_call, swapInstruction.
  rewrite bool_decide_false by done. reflexivity.
Qed.

Lemma swap_in_range (_depth : nat) (s : State) :
  (1 ≤ static_cast_unsigned _depth ≤ 16)%N →
  _depth < length (m_stack (this s)) →
  swap _depth s =
    (Returns tt,
     set_this (set_m_stack (swap_with_back (length (m_stack (this s)) - _depth - 1)))
       (swap_requested _depth s)).
Proof.
  intros Hn H.
  unfold swap, bind, pure_call, swapInstruction, gets, appendInstruction, modify.
  rewrite (bool_decide_true _ Hn). cbn.
  rewrite bool_decide_true by done. reflexivity.
Qed.

Lemma swap_out_of_range (_depth : nat) (s : State) :
  (1 ≤ static_cast_unsigned _depth ≤ 16)%N →
  length (m_stack (this s)) ≤ _depth →
  swap _depth s = (Throws (YulAssertion ""), swap_requested _depth s).
Proof.
  intros Hn H.
  unfold swap, bind, pure_call, swapInstruction, gets, appendInstruction, modify.
  rewrite (bool_decide_true _ Hn). cbn.
  rewrite bool_decide_false by lia. reflexivity.
Qed.


(** ** Entering a block *)

Section EnterBlock.

Variable s : State.
Variable _block : BlockId.
Variable d : BlockData.
Hypothesis Hblock : m_blockData (this s) !! _block = Some d.

Lemma defineLabel_defined :
  ∃ s' d',
    defineLabel _block s = (Returns tt, s') ∧
    m_blockData (this s') !! _block = Some d' ∧
    stackIn d' = stackIn d ∧
    length (m_blockData (this s')) = length (m_blockData (this s)) ∧
    requests (assembly (world s'))
      = requests (assembly (world s)) ++ labelRequests d (assembly (world s)) ∧
    cout (world s') = cout (world s) ∧
    m_stack (this s') = m_stack (this s) ∧
    m_stackErrors (this s') = m_stackErrors (this s) ∧
    m_cfg (this s') = m_cfg (this s) ∧
    m_liveness (this s') = m_liveness (this s).
Proof.
  unfold defineLabel, labelRequests, bind, blockData. rewrite Hblock.
  destruct (label d) as [l|] eqn:Hl; cbn.
  - eexists _, d. split; [reflexivity|]. cbn. by repeat split.
  - eexists _, _. split; [reflexivity|]. cbn.
    rewrite list_lookup_insert_eq by (by eapply lookup_lt_Some).
    rewrite length_insert, <- app_assoc. by repeat split.
Qed.

Lemma loadStackIn_established layout :
  stackIn d = Some layout →
  loadStackIn _block s
    = (Returns tt, set_this (set_m_stack (λ _, layout)) s).
Proof.
  intros H. unfold loadStackIn, bind, blockData. by rewrite Hblock, H.
Qed.

Lemma loadStackIn_missing :
  stackIn d = None →
  loadStackIn _block s
    = (Throws (YulAssertion ("No starting layout for block b" +:+ pretty _block)), s).
Proof.
  intros H. unfold loadStackIn, bind, blockData. by rewrite Hblock, H.
Qed.

End EnterBlock.

Lemma reportStackHeight_reports (s : State) :
  reportStackHeight s
    = (Returns tt,
       set_world (emit (SetStackHeight (static_cast_int (length (m_stack (this s)))))) s).
Proof. reflexivity. Qed.

Lemma enterBlock_established (s : State) (_block : BlockId) d layout :
  m_blockData (this s) !! _block = Some d →
  stackIn d = Some layout →
  ∃ s',
    enterBlock _block s = (Returns tt, s') ∧
    m_stack (this s') = layout ∧
    requests (assembly (world s'))
      = requests (assembly (world s)) ++ labelRequests d (assembly (world s))
          ++ [SetStackHeight (static_cast_int (length layout))] ∧
    cout (world s') = cout (world s) ++ [GenerateBlock _block layout] ∧
    m_stackErrors (this s') = m_stackErrors (this s) ∧
    m_cfg (this s') = m_cfg (this s) ∧
    m_liveness (this s') = m_liveness (this s).
Proof.
  intros Hblock Hin.
  destruct (defineLabel_defined s _block d Hblock)
    as (s1 & d1 & Hrun & Hblock1 & Hin1 & _ & Hreq & Hcout & _ & Herr & Hcfg & Hlive).
  unfold enterBlock.
  rewrite (bind_Returns _ _ _ _ _ Hrun).
  rewrite (bind_Returns _ _ _ _ _
             (loadStackIn_established s1 _block d1 Hblock1 layout (eq_trans Hin1 Hin))).
  eexists. split; [reflexivity|]. cbn.
  rewrite Hreq, Hcout, Herr, Hcfg, Hlive, <- app_assoc. by repeat split.
Qed.

Lemma enterBlock_missing (s : State) (_block : BlockId) d :
  m_blockData (this s) !! _block = Some d →
  stackIn d = None →
  ∃ s',
    enterBlock _block s
      = (Throws (YulAssertion ("No starting layout for block b" +:+ pretty _block)), s') ∧
    m_stack (this s') = m_stack (this s) ∧
    requests (assembly (world s'))
      = requests (assembly (world s)) ++ labelRequests d (assembly (world s)) ∧
    cout (world s') = cout (world s) ∧
    m_stackErrors (this s') = m_stackErrors (this s).
Proof.
  intros Hblock Hin.
  destruct (defineLabel_defined s _block d Hblock)
    as (s1 & d1 & Hrun & Hblock1 & Hin1 & _ & Hreq & Hcout & Hstack & Herr & _).
  unfold enterBlock.
  rewrite (bind_Returns _ _ _ _ _ Hrun).
  rewrite (bind_Throws _ _ _ _ _
             (loadStackIn_missing s1 _block d1 Hblock1 (eq_trans Hin1 Hin))).
  exists s1. by repeat split.
Qed.

(** ** The block traversal *)

Section TraverseBlock.

Variable onOperation : Operation → gset ValueId → M State unit.

Lemma traverseBlock_scope (_block : BlockId) (s : State) :
  traverseBlock onOperation _block s =
    let (o, s') :=
      (enterBlock _block ;;' processOperations onOperation _block) (scopeEntry _block s) in
    (o, scopeExit s s').
Proof. reflexivity. Qed.

Lemma traverseBlock_stack (_block : BlockId) (s : State) :
  m_stack (this (snd (traverseBlock onOperation _block s))) = m_stack (this s).
Proof.
  rewrite traverseBlock_scope.
  destruct ((enterBlock _block ;;' processOperations onOperation _block)
              (scopeEntry _block s)) as [o s'].
  reflexivity.
Qed.

(** C7: a block whose entry layout has not been established makes the
    traversal raise the fault "No starting layout for block b<id>". By then
    only the label of the block has gone to the sink: no height is
    reported, no line is printed, and no operation is visited. *)
Theorem traverseBlock_without_entry_layout (_block : BlockId) (s : State) d :
  m_blockData (this s) !! _block = Some d →
  stackIn d = None →
  ∃ s',
    traverseBlock onOperation _block s
      = (Throws (YulAssertion ("No starting layout for block b" +:+ pretty _block)), s') ∧
    requests (assembly (world s'))
      = requests (assembly (world s)) ++ labelRequests d (assembly (world s)) ∧
    cout (world s') = cout (world s) ∧
    m_stackErrors (this s') = m_stackErrors (this s) ∧
    m_stack (this s') = m_stack (this s).
Proof.
  intros Hblock Hin.
  destruct (enterBlock_missing (scopeEntry _block s) _block d Hblock Hin)
    as (s1 & Hrun & _ & Hreq & Hcout & Herr).
  rewrite traverseBlock_scope, (bind_Throws _ _ _ _ _ Hrun).
  exists (scopeExit s s1). by repeat split.
Qed.

End TraverseBlock.

(** C10: when the block traversal is left, by return or by a fault, the
    working stack holds exactly what it held when the traversal was called.
    This holds for the traversal of the file, and for the traversal with any
    treatment of operations in place of the empty one, whatever it does to
    the stack. *)
Theorem traverseBlock_restores_the_stack (_block : BlockId) (s : State) :
  m_stack (this (snd (operator_BlockId _block s))) = m_stack (this s) ∧
  ∀ onOperation : Operation → gset ValueId → M State unit,
    m_stack (this (snd (traverseBlock onOperation _block s))) = m_stack (this s).
Proof.
  split; [apply traverseBlock_stack|]. intros onOperation. apply traverseBlock_stack.
Qed.

(** C7, on a block table of one fresh entry. *)
Lemma traverseBlock_without_entry_layout_witness :
  ∃ s',
    traverseBlock operator_Operation 0 one_block_state
      = (Throws (YulAssertion "No starting layout for block b0"), s') ∧
    requests (assembly (world s')) = [NewLabelId; AppendLabel 0] ∧
    cout (world s') = [] ∧
    m_stackErrors (this s') = [] ∧
    m_stack (this s') = [].
Proof.
  exact (traverseBlock_without_entry_layout operator_Operation 0 one_block_state
           {| label := None; stackIn := None |} eq_refl eq_refl).
Defined.

(** ** Operations and their live-out sets *)

Section ProcessOperations.

Variable onOperation : Operation → gset ValueId → M State unit.

(** The loop over the zipped ranges visits index after index. *)
Lemma for_each_zip_by_index (done_ops ops : list Operation)
    (done_lives lives : list (gset ValueId)) (s : State) :
  length done_ops = length done_lives →
  length ops = length lives →
  for_each (zip ops lives) (λ p, onOperation (fst p) (snd p)) s
    = processByIndex onOperation (done_ops ++ ops) (done_lives ++ lives)
        (length done_ops) (length ops) s.
Proof.
  revert done_ops done_lives lives s.
  induction ops as [|op ops IH]; intros done_ops done_lives lives s Hdone Hlen.
  - destruct lives; [reflexivity|discriminate].
  - destruct lives as [|live lives]; [discriminate|].
    injection Hlen as Hlen. cbn [zip zip_with for_each processByIndex length].
    rewrite list_lookup_middle by done.
    rewrite list_lookup_middle by done.
    unfold bind. cbn [fst snd].
    destruct (onOperation op live s) as [[[]|f] s']; [|reflexivity].
    specialize (IH (done_ops ++ [op]) (done_lives ++ [live]) lives s').
    rewrite <- !app_assoc, length_app in IH. cbn in IH.
    replace (length done_ops + 1) with (S (length done_ops)) in IH by lia.
    apply IH; [|done].
    rewrite !length_app. cbn. lia.
Qed.

Lemma processOperations_mismatch (_block : BlockId) (s : State) b :
  blocks (m_cfg (this s)) !! _block = Some b →
  length (operations b) ≠ length (operationsLiveOut (m_liveness (this s)) _block) →
  processOperations onOperation _block s = (Throws (YulAssertion ""), s).
Proof.
  intros Hb Hne. unfold processOperations, bind, cfg_block, gets. rewrite Hb.
  rewrite bool_decide_false by done. reflexivity.
Qed.

Lemma processOperations_matched (_block : BlockId) (s : State) b :
  blocks (m_cfg (this s)) !! _block = Some b →
  length (operations b) = length (operationsLiveOut (m_liveness (this s)) _block) →
  processOperations onOperation _block s
    = processByIndex onOperation (operations b)
        (operationsLiveOut (m_liveness (this s)) _block) 0 (length (operations b)) s.
Proof.
  intros Hb Heq. unfold processOperations, bind at 1, cfg_block. rewrite Hb.
  unfold bind at 1, gets. unfold bind at 1.
  rewrite bool_decide_true by done. cbn [yulAssert ret].
  by apply (for_each_zip_by_index [] _ []).
Qed.

(** Entering a block leaves the graph and the oracle alone. *)
Lemma enterBlock_frame (_block : BlockId) (s : State) :
  m_cfg (this (snd (enterBlock _block s))) = m_cfg (this s) ∧
  m_liveness (this (snd (enterBlock _block s))) = m_liveness (this s).
Proof.
  destruct (m_blockData (this s) !! _block) as [d|] eqn:Hblock.
  - destruct (stackIn d) as [layout|] eqn:Hin.
    + destruct (enterBlock_established s _block d layout Hblock Hin)
        as (s' & -> & _ & _ & _ & _ & Hcfg & Hlive). done.
    + destruct (defineLabel_defined s _block d Hblock)
        as (s1 & d1 & Hrun & Hblock1 & Hin1 & _ & _ & _ & _ & _ & Hcfg & Hlive).
      unfold enterBlock.
      rewrite (bind_Returns _ _ _ _ _ Hrun).
      rewrite (bind_Throws _ _ _ _ _
                 (loadStackIn_missing s1 _block d1 Hblock1 (eq_trans Hin1 Hin))).
      done.
  - unfold enterBlock, defineLabel, bind, blockData. rewrite Hblock. done.
Qed.

(** C8: for a block of the graph, when the number of operations differs from
    the number of live-out records, the comparison raises the fault before any
    operation is visited, and so the traversal of the block ends in a fault;
    when the numbers agree, operation [i] is visited with live-out record
    [i], for [i] running over all operations in order, and the zipped range
    holds exactly these pairs. *)
Theorem operations_meet_their_live_outs (_block : BlockId) (s : State) b :
  blocks (m_cfg (this s)) !! _block = Some b →
  let ops := operations b in
  let liveOuts := operationsLiveOut (m_liveness (this s)) _block in
  (length ops ≠ length liveOuts →
     processOperations onOperation _block s = (Throws (YulAssertion ""), s) ∧
     ∃ f s', traverseBlock onOperation _block s = (Throws f, s')) ∧
  (length ops = length liveOuts →
     processOperations onOperation _block s
       = processByIndex onOperation ops liveOuts 0 (length ops) s ∧
     length (zip ops liveOuts) = length ops ∧
     ∀ i, i < length ops →
          ∃ op liveOut, ops !! i = Some op ∧ liveOuts !! i = Some liveOut ∧
                        zip ops liveOuts !! i = Some (op, liveOut)).
Proof.
  intros Hb ops liveOuts. split.
  - intros Hne. split; [by eapply processOperations_mismatch|].
    rewrite traverseBlock_scope.
    destruct (enterBlock_frame _block (scopeEntry _block s)) as [Hcfg Hlive].
    unfold bind at 1.
    destruct (enterBlock _block (scopeEntry _block s)) as [[[]|f] s1] eqn:Henter.
    + cbn [snd] in Hcfg, Hlive.
      rewrite (processOperations_mismatch _block s1 b).
      * by eexists _, _.
      * by rewrite Hcfg.
      * by rewrite Hlive.
    + by eexists _, _.
  - intros Heq. split; [by apply processOperations_matched|].
    split; [rewrite length_zip; lia|].
    intros i Hi.
    destruct (lookup_lt_is_Some_2 ops i Hi) as [op Hop].
    destruct (lookup_lt_is_Some_2 liveOuts i) as [liveOut Hlive]; [lia|].
    exists op, liveOut. split; [done|]. split; [done|].
    by apply lookup_zip_Some.
Qed.

End ProcessOperations.

(** C8, on a block of two operations with two live-out records. *)
Lemma operations_meet_their_live_outs_witness :
  let ops := [ {| outputs := [2]; inputs := [0; 1] |}; {| outputs := [3]; inputs := [2] |} ] in
  let liveOuts : list (gset ValueId) := [ {[2]}; {[3]} ] in
  (length ops ≠ length liveOuts →
     processOperations operator_Operation 0 two_operation_state
       = (Throws (YulAssertion ""), two_operation_state) ∧
     ∃ f s', traverseBlock operator_Operation 0 two_operation_state = (Throws f, s')) ∧
  (length ops = length liveOuts →
     processOperations operator_Operation 0 two_operation_state
       = processByIndex operator_Operation ops liveOuts 0 (length ops) two_operation_state ∧
     length (zip ops liveOuts) = length ops ∧
     ∀ i, i < length ops →
          ∃ op liveOut, ops !! i = Some op ∧ liveOuts !! i = Some liveOut ∧
                        zip ops liveOuts !! i = Some (op, liveOut)).
Proof.
  exact (operations_meet_their_live_outs operator_Operation 0 two_operation_state
           {| operations := [ {| outputs := [2]; inputs := [0; 1] |};
                              {| outputs := [3]; inputs := [2] |} ] |} eq_refl).
Defined.

(** ** The reported height *)

Lemma static_cast_int_small (n : nat) :
  (Z.of_nat n < 2 ^ 31)%Z → static_cast_int n = Z.of_nat n.
Proof.
  intros H. unfold static_cast_int.
  rewrite Z.mod_small by lia.
  destruct (Z.ltb_spec (Z.of_nat n) (2 ^ 31)); [done|lia].
Qed.

(** The treatment of operations in the file changes nothing. *)
Lemma for_each_operator_Operation (l : list (Operation * gset ValueId)) (s : State) :
  for_each l (λ p, operator_Operation (fst p) (snd p)) s = (Returns tt, s).
Proof. induction l as [|p l IH]; [reflexivity|]. cbn. unfold bind. cbn. apply IH. Qed.

Lemma processOperations_operator_Operation (_block : BlockId) (s : State) :
  snd (processOperations operator_Operation _block s) = s.
Proof.
  unfold processOperations, bind, cfg_block, gets.
  destruct (blocks (m_cfg (this s)) !! _block) as [b|]; [|reflexivity].
  case_bool_decide; cbn; [|reflexivity].
  by rewrite for_each_operator_Operation.
Qed.

(** The requests of the traversal of a block whose entry layout is there. *)
Lemma operator_BlockId_requests (_block : BlockId) (s : State) d layout :
  m_blockData (this s) !! _block = Some d →
  stackIn d = Some layout →
  requests (assembly (world (snd (operator_BlockId _block s))))
    = requests (assembly (world s)) ++ labelRequests d (assembly (world s))
        ++ [SetStackHeight (static_cast_int (length layout))].
Proof.
  intros Hblock Hin.
  unfold operator_BlockId. rewrite traverseBlock_scope.
  destruct (enterBlock_established (scopeEntry _block s) _block d layout Hblock Hin)
    as (s2 & Henter & _ & Hreq & _).
  rewrite (bind_Returns _ _ _ _ _ Henter).
  pose proof (processOperations_operator_Operation _block s2) as Hops.
  destruct (processOperations operator_Operation _block s2) as [o s3].
  cbn [snd] in *. subst s3. exact Hreq.
Qed.

(** C3: the traversal of a block reports the height once, at the point where
    the working stack has just become the entry layout, and the height that
    is reported is the number of slots of the working stack at that point.
    The sink takes the height as an [int], so the layout is taken to have
    fewer than 2^31 slots. *)
Theorem reported_height_is_the_stack_size (_block : BlockId) (s : State) d layout :
  m_blockData (this s) !! _block = Some d →
  stackIn d = Some layout →
  (Z.of_nat (length layout) < 2 ^ 31)%Z →
  ∃ s1,
    (defineLabel _block ;;' loadStackIn _block) (scopeEntry _block s) = (Returns tt, s1) ∧
    m_stack (this s1) = layout ∧
    reportStackHeight s1
      = (Returns tt,
         set_world (emit (SetStackHeight (Z.of_nat (length (m_stack (this s1)))))) s1) ∧
    requests (assembly (world (snd (operator_BlockId _block s))))
      = requests (assembly (world s)) ++ labelRequests d (assembly (world s))
          ++ [SetStackHeight (Z.of_nat (length layout))].
Proof.
  intros Hblock Hin Hsmall.
  destruct (defineLabel_defined (scopeEntry _block s) _block d Hblock)
    as (s0 & d0 & Hrun & Hblock0 & Hin0 & _).
  eexists. split.
  { rewrite (bind_Returns _ _ _ _ _ Hrun).
    apply (loadStackIn_established s0 _block d0 Hblock0 layout).
    by rewrite Hin0. }
  split; [reflexivity|]. split.
  { rewrite reportStackHeight_reports. cbn [m_stack this set_this set_m_stack].
    by rewrite static_cast_int_small. }
  rewrite (operator_BlockId_requests _block s d layout Hblock Hin).
  by rewrite static_cast_int_small.
Qed.

(** C3, on the block of two operations whose entry layout has two slots. *)
Lemma reported_height_is_the_stack_size_witness :
  ∃ s1,
    (defineLabel 0 ;;' loadStackIn 0) (scopeEntry 0 two_operation_state) = (Returns tt, s1) ∧
    m_stack (this s1) = [ValueSlot 0; ValueSlot 1] ∧
    reportStackHeight s1
      = (Returns tt,
         set_world (emit (SetStackHeight (Z.of_nat (length (m_stack (this s1)))))) s1) ∧
    requests (assembly (world (snd (operator_BlockId 0 two_operation_state))))
      = [NewLabelId; AppendLabel 0; SetStackHeight 2].
Proof.
  refine (reported_height_is_the_stack_size 0 two_operation_state
            {| label := None; stackIn := Some [ValueSlot 0; ValueSlot 1] |}
            [ValueSlot 0; ValueSlot 1] eq_refl eq_refl _).
  reflexivity.
Defined.

(** ** The entry of the main graph *)

Lemma forceEmptyEntry_forces (s : State) d :
  m_blockData (this s) !! 0 = Some d →
  forceEmptyEntry s
    = (Returns tt,
       set_this (set_m_blockData (λ l, <[0 := {| label := label d; stackIn := Some [] |}]> l)) s).
Proof.
  intros H. unfold forceEmptyEntry, bind, blockData. by rewrite H.
Qed.

(** Whatever the metadata of block 0 says beforehand, the assignment of
    line 83 makes its entry layout the empty sequence; the traversal of
    block 0 that follows reports height 0, prints the empty stack, and the
    operations of the block are processed from a state whose working stack is
    empty. *)
Lemma forced_entry_traversal
    (onOperation : Operation → gset ValueId → M State unit) (s : State) d :
  m_blockData (this s) !! 0 = Some d →
  ∃ s1 s2,
    forceEmptyEntry s = (Returns tt, s1) ∧
    m_blockData (this s1) !! 0 = Some {| label := label d; stackIn := Some [] |} ∧
    enterBlock 0 (scopeEntry 0 s1) = (Returns tt, s2) ∧
    m_stack (this s2) = [] ∧
    requests (assembly (world s2))
      = requests (assembly (world s)) ++ labelRequests d (assembly (world s))
          ++ [SetStackHeight 0] ∧
    cout (world s2) = cout (world s) ++ [GenerateBlock 0 []] ∧
    (forceEmptyEntry ;;' traverseBlock onOperation 0) s
      = (let (o, s3) := processOperations onOperation 0 s2 in (o, scopeExit s s3)).
Proof.
  intros Hblock.
  pose proof (forceEmptyEntry_forces s d Hblock) as Hforce.
  set (s1 := set_this (set_m_blockData
                (λ l, <[0 := {| label := label d; stackIn := Some [] |}]> l)) s) in *.
  assert (Hblock1 : m_blockData (this s1) !! 0
                    = Some {| label := label d; stackIn := Some [] |}).
  { cbn. apply list_lookup_insert_eq. by eapply lookup_lt_Some. }
  destruct (enterBlock_established (scopeEntry 0 s1) 0 _ [] Hblock1 eq_refl)
    as (s2 & Henter & Hstack & Hreq & Hcout & _).
  exists s1, s2. split; [done|]. split; [done|]. split; [done|]. split; [done|].
  split; [exact Hreq|]. split; [exact Hcout|].
  rewrite (bind_Returns _ _ _ _ _ Hforce), traverseBlock_scope.
  rewrite (bind_Returns _ _ _ _ _ Henter). reflexivity.
Qed.

(** ** What the constructor and the functions ask of the sink *)

Lemma instructions_app (l1 l2 : list Request) :
  instructions (l1 ++ l2) = instructions l1 ++ instructions l2.
Proof. apply omap_app. Qed.

(** The label table asks for at most one label, and prints nothing. *)
Lemma functionLabels_init_world policy (_cfg : SSACFG) (w : World) :
  ∃ labels w' added,
    functionLabels_init policy _cfg w = (Returns labels, w') ∧
    cout w' = cout w ∧
    requests (assembly w') = requests (assembly w) ++ added ∧
    instructions added = [].
Proof.
  unfold functionLabels_init.
  destruct (function _cfg) as [f|]; [|exists ∅, w, []; by rewrite app_nil_r].
  unfold set_insert. cbn [snd].
  rewrite (bool_decide_true (name f ∉ (∅ : gset string))) by set_solver. cbn [negb].
  unfold bind. destruct (bool_decide (policy = YesAndForceUnique)); cbn;
    destruct (bool_decide (policy ≠ Never)); cbn; by eexists _, _, [_].
Qed.

(** The transform the constructor returns, and the world it leaves. *)
Lemma SSAEVMCodeTransform_new_world policy (_cfg : SSACFG)
    (_liveness : SSACFGLiveness) (w : World) :
  ∃ t w' added,
    SSAEVMCodeTransform_new policy _cfg _liveness w = (Returns t, w') ∧
    m_blockData t = replicate (numBlocks _cfg) {| label := None; stackIn := None |} ∧
    m_stack t = [] ∧
    m_stackErrors t = [] ∧
    cout w' = cout w ∧
    requests (assembly w') = requests (assembly w) ++ added ∧
    instructions added = [].
Proof.
  destruct (functionLabels_init_world policy _cfg w)
    as (labels & w' & added & Hinit & Hcout & Hrequests & Hadded).
  eexists _, w', added. split.
  - unfold SSAEVMCodeTransform_new. by rewrite (bind_Returns _ _ _ _ _ Hinit).
  - by repeat split.
Qed.

Section FunctionsAndTheSink.

Variable SSACFGLiveness_new : SSACFG → SSACFGLiveness.

(** With the body of the file, compiling a function is constructing its
    transform. *)
Lemma compileFunction_operator_Function policy entry (w : World) :
  compileFunction operator_Function SSACFGLiveness_new policy entry w
    = SSAEVMCodeTransform_new policy (snd entry) (SSACFGLiveness_new (snd entry)) w.
Proof.
  unfold compileFunction, bind, call_on, operator_Function, ret.
  by destruct (SSAEVMCodeTransform_new policy (snd entry)
                 (SSACFGLiveness_new (snd entry)) w) as [[t|f] w'].
Qed.

(** The functions are compiled with the body of the file: nothing is
    printed and no instruction reaches the sink. *)
Lemma compileFunctions_world policy mapping stackErrors (w : World) :
  ∃ added,
    cout (snd (compileFunctions operator_Function SSACFGLiveness_new policy
                 mapping stackErrors w)) = cout w ∧
    requests (assembly (snd (compileFunctions operator_Function SSACFGLiveness_new policy
                               mapping stackErrors w)))
      = requests (assembly w) ++ added ∧
    instructions added = [].
Proof.
  revert stackErrors w.
  induction mapping as [|entry mapping IH]; intros stackErrors w.
  - exists []. by rewrite app_nil_r.
  - cbn [compileFunctions].
    destruct (SSAEVMCodeTransform_new_world policy (snd entry)
                (SSACFGLiveness_new (snd entry)) w)
      as (t & w1 & added & Hnew & _ & _ & _ & Hcout & Hrequests & Hadded).
    rewrite <- compileFunction_operator_Function in Hnew.
    rewrite (bind_Returns _ _ _ _ _ Hnew).
    edestruct IH as (added' & Hcout' & Hrequests' & Hadded').
    exists (added ++ added').
    rewrite Hcout', Hrequests', Hcout, Hrequests, instructions_app, Hadded, Hadded'.
    by rewrite <- app_assoc.
Qed.

End FunctionsAndTheSink.

(** ** The driver *)

Section Driver.

Variable onOperation : Operation → gset ValueId → M State unit.
Variable onFunction : Function → SSACFG → M State unit.
Variable SSACFGLiveness_new : SSACFG → SSACFGLiveness.

(** What the conditional [insert] of the loop adds to the accumulator. *)
Lemma append_unless_empty (stackErrors found : list StackTooDeepError) :
  (if negb (bool_decide (found = [])) then stackErrors ++ found else stackErrors)
    = stackErrors ++ found.
Proof. case_bool_decide as H; cbn; [|done]. by rewrite H, app_nil_r. Qed.

Lemma move_unless_empty (found : list StackTooDeepError) :
  (if negb (bool_decide (found = [])) then found else []) = found.
Proof. by case_bool_decide as H; cbn. Qed.

(** The loop over the functions appends, in order, what each function's
    transform has recorded. *)
Lemma compileFunctions_collects policy (mapping : list (Function * SSACFG))
    (stackErrors : list StackTooDeepError) (w : World) :
  compileFunctions onFunction SSACFGLiveness_new policy mapping stackErrors w
    = match compileEach onFunction SSACFGLiveness_new policy mapping w with
      | (Returns units, w') => (Returns (stackErrors ++ allViolations units), w')
      | (Throws f, w') => (Throws f, w')
      end.
Proof.
  revert stackErrors w.
  induction mapping as [|entry mapping IH]; intros stackErrors w.
  - cbn. by rewrite app_nil_r.
  - cbn [compileFunctions compileEach]. unfold bind.
    destruct (compileFunction onFunction SSACFGLiveness_new policy entry w)
      as [[t|f] w1]; [|reflexivity].
    rewrite IH, append_unless_empty.
    destruct (compileEach onFunction SSACFGLiveness_new policy mapping w1)
      as [[ts|f] w2]; [|reflexivity].
    cbn. unfold allViolations. cbn. by rewrite app_assoc.
Qed.

Lemma compileEach_length policy (mapping : list (Function * SSACFG)) (w : World) units w' :
  compileEach onFunction SSACFGLiveness_new policy mapping w = (Returns units, w') →
  length units = length mapping.
Proof.
  revert w units w'.
  induction mapping as [|entry mapping IH]; intros w units w' H.
  - cbn in H. by injection H as <- _.
  - cbn [compileEach] in H. unfold bind in H.
    destruct (compileFunction onFunction SSACFGLiveness_new policy entry w)
      as [[t|f] w1]; [|discriminate].
    destruct (compileEach onFunction SSACFGLiveness_new policy mapping w1)
      as [[ts|f] w2] eqn:Hts; [|discriminate].
    cbn in H. injection H as <- _. cbn. f_equal. by eapply IH.
Qed.

Lemma run_with_collects (controlFlow : ControlFlow) policy (w : World) :
  run_with onOperation onFunction SSACFGLiveness_new controlFlow policy w
    = match compileUnits onOperation onFunction SSACFGLiveness_new controlFlow policy w with
      | (Returns units, w') => (Returns (allViolations units), w')
      | (Throws f, w') => (Throws f, w')
      end.
Proof.
  unfold run_with, compileUnits, bind.
  destruct (compileMain onOperation SSACFGLiveness_new controlFlow policy w)
    as [[t|f] w1]; [|reflexivity].
  rewrite compileFunctions_collects, move_unless_empty.
  destruct (compileEach onFunction SSACFGLiveness_new policy
              (functionGraphMapping controlFlow) w1) as [[ts|f] w2]; reflexivity.
Qed.

Lemma compileUnits_units (controlFlow : ControlFlow) policy (w : World) units w' :
  compileUnits onOperation onFunction SSACFGLiveness_new controlFlow policy w
    = (Returns units, w') →
  ∃ main functions,
    units = main :: functions ∧
    length functions = length (functionGraphMapping controlFlow) ∧
    allViolations units = m_stackErrors main ++ allViolations functions.
Proof.
  intros H. unfold compileUnits, bind in H.
  destruct (compileMain onOperation SSACFGLiveness_new controlFlow policy w)
    as [[t|f] w1]; [|discriminate].
  destruct (compileEach onFunction SSACFGLiveness_new policy
              (functionGraphMapping controlFlow) w1) as [[ts|f] w2] eqn:Hts; [|discriminate].
  cbn in H. injection H as <- _.
  exists t, ts. split; [done|]. split; [by eapply compileEach_length|done].
Qed.

End Driver.

(** C4: the driver constructs the transform of the main graph, makes the
    entry layout of its block 0 the empty sequence and traverses block 0:
    the operations of the block are processed from a state whose working
    stack is empty, after the label of the block and the height 0 have gone
    to the sink and the empty stack has been printed. This is what
    [compileMain] and the driver do for any treatment of operations and
    functions, and what [run] does: it prints the empty stack of block 0 and
    reports the height 0, whatever else it is given. The main graph is taken
    to have a block 0. *)
Theorem run_starts_block_0_from_the_empty_stack
    (onOperation : Operation → gset ValueId → M State unit)
    (onFunction : Function → SSACFG → M State unit)
    (SSACFGLiveness_new : SSACFG → SSACFGLiveness)
    (controlFlow : ControlFlow) policy (w : World) :
  0 < numBlocks (mainGraph controlFlow) →
  ∃ t0 w0 s1 s2,
    SSAEVMCodeTransform_new policy (mainGraph controlFlow)
      (SSACFGLiveness_new (mainGraph controlFlow)) w = (Returns t0, w0) ∧
    forceEmptyEntry {| world := w0; this := t0 |} = (Returns tt, s1) ∧
    m_blockData (this s1) !! 0 = Some {| label := None; stackIn := Some [] |} ∧
    enterBlock 0 (scopeEntry 0 s1) = (Returns tt, s2) ∧
    m_stack (this s2) = [] ∧
    requests (assembly (world s2))
      = requests (assembly w0)
          ++ [NewLabelId; AppendLabel (nextLabel (assembly w0)); SetStackHeight 0] ∧
    cout (world s2) = cout w ++ [GenerateBlock 0 []] ∧
    compileMain onOperation SSACFGLiveness_new controlFlow policy w
      = match processOperations onOperation 0 s2 with
        | (Returns _, s3) => (Returns (set_m_stack (λ _, []) (this s3)), world s3)
        | (Throws f, s3) => (Throws f, world s3)
        end ∧
    run_with onOperation onFunction SSACFGLiveness_new controlFlow policy w
      = match processOperations onOperation 0 s2 with
        | (Returns _, s3) =>
            compileFunctions onFunction SSACFGLiveness_new policy
              (functionGraphMapping controlFlow) (m_stackErrors (this s3)) (world s3)
        | (Throws f, s3) => (Throws f, world s3)
        end ∧
    cout (snd (run SSACFGLiveness_new controlFlow policy w))
      = cout w ++ [GenerateBlock 0 []] ∧
    ∃ after,
      requests (assembly (snd (run SSACFGLiveness_new controlFlow policy w)))
        = requests (assembly w0)
            ++ [NewLabelId; AppendLabel (nextLabel (assembly w0)); SetStackHeight 0]
            ++ after ∧
      instructions after = [].
Proof.
  intros Hblocks.
  destruct (SSAEVMCodeTransform_new_world policy (mainGraph controlFlow)
              (SSACFGLiveness_new (mainGraph controlFlow)) w)
    as (t0 & w0 & added & Hnew & Hdata & Hstack0 & _ & Hcout0 & _).
  set (s0 := {| world := w0; this := t0 |}).
  assert (Hblock : m_blockData (this s0) !! 0 = Some {| label := None; stackIn := None |}).
  { cbn. rewrite Hdata. by apply lookup_replicate_2. }
  assert (Hmain : ∀ onOperation',
    ∃ s1 s2,
      forceEmptyEntry s0 = (Returns tt, s1) ∧
      m_blockData (this s1) !! 0 = Some {| label := None; stackIn := Some [] |} ∧
      enterBlock 0 (scopeEntry 0 s1) = (Returns tt, s2) ∧
      m_stack (this s2) = [] ∧
      requests (assembly (world s2))
        = requests (assembly w0)
            ++ [NewLabelId; AppendLabel (nextLabel (assembly w0)); SetStackHeight 0] ∧
      cout (world s2) = cout w ++ [GenerateBlock 0 []] ∧
      compileMain onOperation' SSACFGLiveness_new controlFlow policy w
        = match processOperations onOperation' 0 s2 with
          | (Returns _, s3) => (Returns (set_m_stack (λ _, []) (this s3)), world s3)
          | (Throws f, s3) => (Throws f, world s3)
          end).
  { intros onOperation'.
    destruct (forced_entry_traversal onOperation' s0 _ Hblock)
      as (s1 & s2 & Hforce & Hblock1 & Henter & Hstack & Hrequests & Hcout & Hrun).
    exists s1, s2. cbn in Hcout, Hrequests. rewrite Hcout0 in Hcout.
    split; [done|]. split; [done|]. split; [done|]. split; [done|].
    split; [exact Hrequests|]. split; [exact Hcout|].
    unfold compileMain. rewrite (bind_Returns _ _ _ _ _ Hnew).
    unfold bind at 1. unfold call_on. fold s0. rewrite Hrun.
    destruct (processOperations onOperation' 0 s2) as [[[]|f] s3]; [|reflexivity].
    cbn. by rewrite Hstack0. }
  destruct (Hmain onOperation)
    as (s1 & s2 & Hforce & Hblock1 & Henter & Hstack & Hrequests & Hcout & Hcompile).
  exists t0, w0, s1, s2.
  split; [done|]. split; [done|]. split; [done|]. split; [done|]. split; [done|].
  split; [done|]. split; [done|]. split; [done|].
  split.
  { unfold run_with. unfold bind at 1. rewrite Hcompile.
    destruct (processOperations onOperation 0 s2) as [[[]|f] s3]; [|reflexivity].
    by rewrite move_unless_empty. }
  destruct (Hmain operator_Operation)
    as (s1' & s2' & Hforce' & _ & Henter' & _ & _ & _ & Hcompile').
  rewrite Hforce in Hforce'. injection Hforce' as <-.
  rewrite Henter in Henter'. injection Henter' as <-.
  unfold run, run_with. unfold bind at 1 2. rewrite Hcompile'.
  pose proof (processOperations_operator_Operation 0 s2) as Hops.
  destruct (processOperations operator_Operation 0 s2) as [[[]|f] s3];
    cbn [snd] in Hops; subst s3.
  - edestruct (compileFunctions_world SSACFGLiveness_new policy
                 (functionGraphMapping controlFlow)) as (after & Hcout' & Hrequests' & Hafter).
    rewrite Hcout', Hrequests', Hcout, Hrequests.
    split; [done|]. exists after. by rewrite <- app_assoc.
  - cbn [snd]. rewrite Hcout, Hrequests.
    split; [done|]. exists []. by rewrite app_nil_r.
Qed.

(** C4, on the program whose entry block holds one operation. *)
Lemma run_starts_block_0_from_the_empty_stack_witness :
  0 < numBlocks (mainGraph one_operation_program) ∧
  ∃ s2,
    m_stack (this s2) = [] ∧
    m_blockData (this s2) !! 0 = Some {| label := Some 0; stackIn := Some [] |} ∧
    compileMain operator_Operation live_5 one_operation_program Never empty_world
      = match processOperations operator_Operation 0 s2 with
        | (Returns _, s3) => (Returns (set_m_stack (λ _, []) (this s3)), world s3)
        | (Throws f, s3) => (Throws f, world s3)
        end ∧
    cout (snd (run live_5 one_operation_program Never empty_world))
      = [GenerateBlock 0 []] ∧
    requests (assembly (snd (run live_5 one_operation_program Never empty_world)))
      = [NewLabelId; AppendLabel 0; SetStackHeight 0].
Proof.
  assert (Hblocks : 0 < numBlocks (mainGraph one_operation_program)) by (cbn; lia).
  split; [exact Hblocks|].
  destruct (run_starts_block_0_from_the_empty_stack operator_Operation operator_Function
              live_5 one_operation_program Never empty_world Hblocks)
    as (t0 & w0 & s1 & s2 & Hnew & Hforce & _ & Henter & Hstack & _ & _ & Hcompile & _).
  injection Hnew as <- <-. injection Hforce as <-. injection Henter as <-.
  eexists. split; [exact Hstack|]. split; [reflexivity|]. split; [exact Hcompile|].
  split; reflexivity.
Defined.

(** C5: [run] returns the violations of the entry unit followed by those of
    each function, in the order the functions are compiled. The same holds of
    the driver with any treatment of operations and functions in place of
    the empty ones of the file, so whatever the units record. What a unit
    records is data only: the units are compiled one after the other without
    a look at the violations, and when the driver returns, every unit has
    been compiled. *)
Theorem run_returns_the_violations_of_all_units
    (SSACFGLiveness_new : SSACFG → SSACFGLiveness)
    (controlFlow : ControlFlow) policy (w : World) :
  run SSACFGLiveness_new controlFlow policy w
    = match compileUnits operator_Operation operator_Function SSACFGLiveness_new
              controlFlow policy w with
      | (Returns units, w') => (Returns (allViolations units), w')
      | (Throws f, w') => (Throws f, w')
      end ∧
  ∀ (onOperation : Operation → gset ValueId → M State unit)
    (onFunction : Function → SSACFG → M State unit),
    run_with onOperation onFunction SSACFGLiveness_new controlFlow policy w
      = match compileUnits onOperation onFunction SSACFGLiveness_new controlFlow policy w with
        | (Returns units, w') => (Returns (allViolations units), w')
        | (Throws f, w') => (Throws f, w')
        end ∧
    ∀ units w',
      compileUnits onOperation onFunction SSACFGLiveness_new controlFlow policy w
        = (Returns units, w') →
      ∃ main functions,
        units = main :: functions ∧
        length functions = length (functionGraphMapping controlFlow) ∧
        allViolations units = m_stackErrors main ++ allViolations functions.
Proof.
  split; [apply run_with_collects|].
  intros onOperation onFunction. split; [apply run_with_collects|].
  apply compileUnits_units.
Qed.

(** The driver on units that do record violations: those of the entry unit
    come first, those of the functions follow in the order of the mapping. *)
Example run_with_recorded_violations :
  fst (run_with recording_onOperation recording_onFunction live_5_in_main
         program_with_functions Never empty_world)
    = Returns [ {| violationUnit := "main"; violationPoint := 1 |};
                {| violationUnit := "f"; violationPoint := 1 |};
                {| violationUnit := "f"; violationPoint := 2 |} ].
Proof. vm_compute. reflexivity. Qed.

(** ** What the bodies of the file do *)

(** C2, the code at the failing input: the treatment of an operation returns
    at once. For the operation that produces value 5, visited on an empty
    stack, the stack is empty afterwards, and compiling the program that
    consists of this operation sends the label of the block and height 0 to
    the sink and nothing for the operation. *)
Theorem operator_Operation_leaves_the_stack_as_it_is :
  (∀ op liveOut s, operator_Operation op liveOut s = (Returns tt, s)) ∧
  m_stack (this (snd (operator_Operation produce_5 {[5]} (state_of_stack [])))) = [] ∧
  run live_5 one_operation_program Never empty_world
    = (Returns [],
       {| assembly := {| requests := [NewLabelId; AppendLabel 0; SetStackHeight 0];
                         nextLabel := 1 |};
          cout := [GenerateBlock 0 []] |}).
Proof. split; [intros; reflexivity|]. split; [reflexivity|]. vm_compute. reflexivity. Qed.

(** The set of names is new for every transform, so the name of the function
    is never seen before, and the initializer of the label table returns. *)
Lemma functionLabels_init_returns policy (_cfg : SSACFG) (w : World) :
  ∃ labels w', functionLabels_init policy _cfg w = (Returns labels, w').
Proof.
  unfold functionLabels_init.
  destruct (function _cfg) as [f|]; [|by eexists _, _].
  unfold set_insert. cbn [snd].
  rewrite (bool_decide_true (name f ∉ (∅ : gset string))) by set_solver. cbn [negb].
  unfold bind. destruct (bool_decide (policy = YesAndForceUnique)); cbn;
    destruct (bool_decide (policy ≠ Never)); cbn; by eexists _, _.
Qed.

(** C6, the code at the failing input: with duplicates forbidden, two
    functions named f are compiled one after the other; both get a named
    label and the driver returns. *)
Theorem second_f_is_registered_without_a_fault :
  run no_records two_functions_named_f YesAndForceUnique empty_world
    = (Returns [],
       {| assembly := {| requests := [NewLabelId; AppendLabel 0; SetStackHeight 0;
                                      NamedLabel "f" 2 0 None; NamedLabel "f" 2 0 None];
                         nextLabel := 3 |};
          cout := [GenerateBlock 0 []] |}).
Proof. vm_compute. reflexivity. Qed.

(** ** The constructor *)

(** The initializer of the label table, when it returns: a graph without a
    function gives the empty table and asks nothing of the sink; a graph with
    a function gives the table that maps the function to the label the sink
    has handed out, by one request, which under [Never] is for an anonymous
    label. *)
Lemma functionLabels_init_table policy (_cfg : SSACFG) (w : World) labels w' :
  functionLabels_init policy _cfg w = (Returns labels, w') →
  match function _cfg with
  | Some f =>
      labels = {[ address f := nextLabel (assembly w) ]} ∧
      nextLabel (assembly w') = S (nextLabel (assembly w)) ∧
      ∃ r, requests (assembly w') = requests (assembly w) ++ [r] ∧
           (policy = Never → r = NewLabelId)
  | None => labels = ∅ ∧ w' = w
  end.
Proof.
  unfold functionLabels_init.
  destruct (function _cfg) as [f|]; [|by intros [= <- <-]].
  unfold bind.
  destruct (bool_decide (policy = YesAndForceUnique)) eqn:Hforce.
  - destruct (yulAssert _ _ w) as [[[]|e] w1] eqn:Hassert; [|discriminate].
    unfold yulAssert in Hassert.
    destruct (negb (negb (snd (set_insert (name f) ∅)))); [|discriminate].
    injection Hassert as <-.
    apply bool_decide_eq_true in Hforce as ->.
    cbn. intros [= <- <-]. cbn. split; [done|]. split; [done|].
    eexists. split; [reflexivity|]. discriminate.
  - cbn [ret].
    destruct (bool_decide (policy ≠ Never) && negb (negb (snd (set_insert (name f) ∅))))
      eqn:Hnamed.
    + cbn. intros [= <- <-]. cbn. split; [done|]. split; [done|].
      eexists. split; [reflexivity|].
      intros ->. by rewrite bool_decide_false in Hnamed by (by intros []).
    + cbn. intros [= <- <-]. cbn. split; [done|]. split; [done|].
      eexists. split; [reflexivity|]. done.
Qed.

(** X1. When the constructor returns for a graph with a function, the label
    table maps this function to the label the sink has handed out, which
    under [Never] is an anonymous one; [getFunctionLabel] yields this label
    for the function and throws for a function that is not in the table. For
    a graph without a function the table is empty and the sink is not asked
    for a label. *)
Theorem function_label_is_the_allocated_one policy (_cfg : SSACFG)
    (_liveness : SSACFGLiveness) (w : World) t w' :
  SSAEVMCodeTransform_new policy _cfg _liveness w = (Returns t, w') →
  match function _cfg with
  | Some f =>
      (∀ w0, getFunctionLabel f {| world := w0; this := t |}
             = (Returns (nextLabel (assembly w)), {| world := w0; this := t |})) ∧
      (∀ g w0, address g ≠ address f →
               getFunctionLabel g {| world := w0; this := t |}
               = (Throws OutOfRange, {| world := w0; this := t |})) ∧
      nextLabel (assembly w') = S (nextLabel (assembly w)) ∧
      (policy = Never → requests (assembly w') = requests (assembly w) ++ [NewLabelId])
  | None =>
      m_functionLabels t = ∅ ∧ w' = w ∧
      ∀ g w0, getFunctionLabel g {| world := w0; this := t |}
              = (Throws OutOfRange, {| world := w0; this := t |})
  end.
Proof.
  unfold SSAEVMCodeTransform_new, bind.
  destruct (functionLabels_init policy _cfg w) as [[labels|e] w1] eqn:Hinit; [|discriminate].
  cbn. intros [= <- <-].
  pose proof (functionLabels_init_table policy _cfg w labels w1 Hinit) as Htable.
  destruct (function _cfg) as [f|].
  - destruct Htable as (-> & Hnext & r & Hreq & Hnever).
    split. { intros w0. unfold getFunctionLabel. cbn. by rewrite lookup_singleton_eq. }
    split. { intros g w0 Hne. unfold getFunctionLabel. cbn. by rewrite lookup_singleton_ne. }
    split; [done|]. intros Hpolicy. by rewrite Hreq, (Hnever Hpolicy).
  - destruct Htable as [-> ->]. split; [done|]. split; [done|].
    intros g w0. unfold getFunctionLabel. cbn. by rewrite lookup_empty.
Qed.

(** X1, for the graph of the first function named f, under [Never]. *)
Lemma function_label_is_the_allocated_one_witness :
  let t := {| m_cfg := graph_of first_f; m_liveness := no_records (graph_of first_f);
              m_functionLabels := {[ 1 := 0 ]};
              m_blockData := [ {| label := None; stackIn := None |} ];
              m_stack := []; m_stackErrors := []; m_currentBlock := None |} in
  (∀ w0, getFunctionLabel first_f {| world := w0; this := t |}
         = (Returns 0, {| world := w0; this := t |})) ∧
  (∀ g w0, address g ≠ 1 →
           getFunctionLabel g {| world := w0; this := t |}
           = (Throws OutOfRange, {| world := w0; this := t |})) ∧
  1 = 1 ∧
  (Never = Never → [NewLabelId] = [NewLabelId]).
Proof.
  exact (function_label_is_the_allocated_one Never (graph_of first_f)
           (no_records (graph_of first_f)) empty_world _ _ eq_refl).
Defined.

(** ** The label of a block *)

(** X3. The label of a block is allocated on the first visit only: a block that
    has a label gets this label appended and nothing else happens; a block
    without one gets the next label of the sink, which is stored in its
    metadata, so that the next visit appends the same label. *)
Theorem block_label_is_allocated_once (_block : BlockId) (s : State) d :
  m_blockData (this s) !! _block = Some d →
  match label d with
  | Some l => defineLabel _block s = (Returns tt, set_world (emit (AppendLabel l)) s)
  | None =>
      ∃ s1,
        defineLabel _block s = (Returns tt, s1) ∧
        m_blockData (this s1) !! _block
          = Some {| label := Some (nextLabel (assembly (world s))); stackIn := stackIn d |} ∧
        requests (assembly (world s1))
          = requests (assembly (world s))
              ++ [NewLabelId; AppendLabel (nextLabel (assembly (world s)))] ∧
        defineLabel _block s1
          = (Returns tt, set_world (emit (AppendLabel (nextLabel (assembly (world s))))) s1)
  end.
Proof.
  intros Hblock.
  assert (Hlt : _block < length (m_blockData (this s))) by (by eapply lookup_lt_Some).
  destruct (label d) as [l|] eqn:Hl.
  - unfold defineLabel, bind, blockData. by rewrite Hblock, Hl.
  - eexists. split.
    { unfold defineLabel, bind, blockData. rewrite Hblock, Hl. reflexivity. }
    cbn. rewrite list_lookup_insert_eq by done.
    split; [done|]. split; [by rewrite <- app_assoc|].
    unfold defineLabel, bind, blockData. cbn.
    rewrite list_lookup_insert_eq by done. reflexivity.
Qed.

(** X3, on [two_operation_state], whose block 0 has no label yet. *)
Lemma block_label_is_allocated_once_witness :
  ∃ s1,
    defineLabel 0 two_operation_state = (Returns tt, s1) ∧
    m_blockData (this s1) !! 0
      = Some {| label := Some 0; stackIn := Some [ValueSlot 0; ValueSlot 1] |} ∧
    requests (assembly (world s1)) = [NewLabelId; AppendLabel 0] ∧
    defineLabel 0 s1 = (Returns tt, set_world (emit (AppendLabel 0)) s1).
Proof.
  exact (block_label_is_allocated_once 0 two_operation_state
           {| label := None; stackIn := Some [ValueSlot 0; ValueSlot 1] |} eq_refl).
Defined.

(** ** No violation is recorded by the bodies of the file *)

Lemma enterBlock_keeps_stackErrors (_block : BlockId) (s : State) :
  m_stackErrors (this (snd (enterBlock _block s))) = m_stackErrors (this s).
Proof.
  destruct (m_blockData (this s) !! _block) as [d|] eqn:Hblock.
  - destruct (stackIn d) as [layout|] eqn:Hin.
    + destruct (enterBlock_established s _block d layout Hblock Hin)
        as (s' & -> & _ & _ & _ & Herr & _). done.
    + destruct (enterBlock_missing s _block d Hblock Hin)
        as (s' & -> & _ & _ & _ & Herr). done.
  - unfold enterBlock, defineLabel, bind, blockData. rewrite Hblock. done.
Qed.

Lemma operator_BlockId_keeps_stackErrors (_block : BlockId) (s : State) :
  m_stackErrors (this (snd (operator_BlockId _block s))) = m_stackErrors (this s).
Proof.
  unfold operator_BlockId. rewrite traverseBlock_scope. unfold bind.
  pose proof (enterBlock_keeps_stackErrors _block (scopeEntry _block s)) as Henter.
  destruct (enterBlock _block (scopeEntry _block s)) as [[[]|f] s1]; [|exact Henter].
  pose proof (processOperations_operator_Operation _block s1) as Hops.
  destruct (processOperations operator_Operation _block s1) as [o s2].
  cbn [snd] in *. by subst s2.
Qed.

Lemma SSAEVMCodeTransform_new_returns policy (_cfg : SSACFG)
    (_liveness : SSACFGLiveness) (w : World) :
  ∃ t w',
    SSAEVMCodeTransform_new policy _cfg _liveness w = (Returns t, w') ∧
    m_stackErrors t = [].
Proof.
  destruct (functionLabels_init_returns policy _cfg w) as (labels & w' & Hinit).
  eexists _, w'. split.
  - unfold SSAEVMCodeTransform_new. by rewrite (bind_Returns _ _ _ _ _ Hinit).
  - reflexivity.
Qed.

Section NoViolation.

Variable SSACFGLiveness_new : SSACFG → SSACFGLiveness.

Lemma compileMain_records_nothing (controlFlow : ControlFlow) policy (w : World) t w' :
  compileMain operator_Operation SSACFGLiveness_new controlFlow policy w = (Returns t, w') →
  m_stackErrors t = [].
Proof.
  unfold compileMain.
  destruct (SSAEVMCodeTransform_new_returns policy (mainGraph controlFlow)
              (SSACFGLiveness_new (mainGraph controlFlow)) w) as (t0 & w0 & Hnew & Herr).
  rewrite (bind_Returns _ _ _ _ _ Hnew).
  unfold bind, call_on.
  set (s0 := {| world := w0; this := t0 |}).
  assert (Hforce : m_stackErrors (this (snd (forceEmptyEntry s0))) = []).
  { unfold forceEmptyEntry, bind, blockData.
    destruct (m_blockData (this s0) !! 0); exact Herr. }
  destruct (forceEmptyEntry s0) as [[[]|f] s1]; [|discriminate].
  pose proof (operator_BlockId_keeps_stackErrors 0 s1) as Hkeep.
  unfold operator_BlockId in Hkeep.
  destruct (traverseBlock operator_Operation 0 s1) as [[[]|f] s2]; [|discriminate].
  cbn. intros H. injection H as <- _.
  cbn [snd] in *. congruence.
Qed.

Lemma compileFunction_records_nothing policy entry (w : World) t w' :
  compileFunction operator_Function SSACFGLiveness_new policy entry w = (Returns t, w') →
  m_stackErrors t = [].
Proof.
  unfold compileFunction.
  destruct (SSAEVMCodeTransform_new_returns policy (snd entry)
              (SSACFGLiveness_new (snd entry)) w) as (t0 & w0 & Hnew & Herr).
  rewrite (bind_Returns _ _ _ _ _ Hnew).
  cbn. intros H. by injection H as <- _.
Qed.

Lemma compileEach_records_nothing policy mapping (w : World) units w' :
  compileEach operator_Function SSACFGLiveness_new policy mapping w = (Returns units, w') →
  allViolations units = [].
Proof.
  revert w units w'.
  induction mapping as [|entry mapping IH]; intros w units w' H.
  - cbn in H. by injection H as <- _.
  - cbn [compileEach] in H. unfold bind in H.
    destruct (compileFunction operator_Function SSACFGLiveness_new policy entry w)
      as [[t|f] w1] eqn:Ht; [|discriminate].
    destruct (compileEach operator_Function SSACFGLiveness_new policy mapping w1)
      as [[ts|f] w2] eqn:Hts; [|discriminate].
    cbn in H. injection H as <- _.
    unfold allViolations. cbn.
    rewrite (compileFunction_records_nothing _ _ _ _ _ Ht).
    by apply (IH _ _ _ Hts).
Qed.

(** With the bodies of the file nothing writes [m_stackErrors]: whenever
    [run] returns, it returns the empty list. *)
Lemma run_reports_nothing (controlFlow : ControlFlow) policy (w : World) errors w' :
  run SSACFGLiveness_new controlFlow policy w = (Returns errors, w') →
  errors = [].
Proof.
  unfold run. rewrite run_with_collects. unfold compileUnits, bind.
  destruct (compileMain operator_Operation SSACFGLiveness_new controlFlow policy w)
    as [[t|f] w1] eqn:Ht; [|discriminate].
  destruct (compileEach operator_Function SSACFGLiveness_new policy
              (functionGraphMapping controlFlow) w1) as [[ts|f] w2] eqn:Hts; [|discriminate].
  intros H. injection H as <- _.
  unfold allViolations. cbn.
  rewrite (compileMain_records_nothing _ _ _ _ _ Ht).
  by apply (compileEach_records_nothing _ _ _ _ _ Hts).
Qed.

End NoViolation.

(** ** No instruction is emitted by the traversal of the file

    [pop] and [swap] have no caller yet: the requests of a block traversal
    are those of its label and, when the entry layout is there, the height. *)

Lemma labelRequests_no_instruction d a i :
  AppendInstruction i ∉ labelRequests d a.
Proof.
  unfold labelRequests. intros H.
  destruct (label d);
    repeat (apply elem_of_cons in H as [H|H]; [discriminate H|]);
    by apply elem_of_nil in H.
Qed.

Lemma operator_BlockId_emits_no_instruction (_block : BlockId) (s : State) i :
  AppendInstruction i ∉ requests_added s (snd (operator_BlockId _block s)).
Proof.
  unfold requests_added, operator_BlockId.
  destruct (m_blockData (this s) !! _block) as [d|] eqn:Hblock.
  - destruct (stackIn d) as [layout|] eqn:Hin.
    + pose proof (operator_BlockId_requests _block s d layout Hblock Hin) as Hreq.
      unfold operator_BlockId in Hreq. rewrite Hreq, drop_app_length.
      intros [H|H]%elem_of_app.
      * by apply labelRequests_no_instruction in H.
      * apply list_elem_of_singleton in H. discriminate H.
    + destruct (enterBlock_missing (scopeEntry _block s) _block d Hblock Hin)
        as (s1 & Hrun & _ & Hreq & _).
      rewrite traverseBlock_scope, (bind_Throws _ _ _ _ _ Hrun).
      cbn [snd scopeExit set_this world]. rewrite Hreq. cbn [scopeEntry set_this world].
      rewrite drop_app_length.
      apply labelRequests_no_instruction.
  - rewrite traverseBlock_scope.
    unfold enterBlock, defineLabel, bind, blockData. cbn. rewrite Hblock. cbn.
    rewrite drop_all. apply not_elem_of_nil.
Qed.

Lemma labelRequests_instructions d a : instructions (labelRequests d a) = [].
Proof. unfold labelRequests. by destruct (label d). Qed.

(** The requests of a block traversal, however it ends: labels and
    heights. *)
Lemma operator_BlockId_world (_block : BlockId) (s : State) :
  ∃ added,
    requests (assembly (world (snd (operator_BlockId _block s))))
      = requests (assembly (world s)) ++ added ∧
    instructions added = [].
Proof.
  destruct (m_blockData (this s) !! _block) as [d|] eqn:Hblock.
  - destruct (stackIn d) as [layout|] eqn:Hin.
    + exists (labelRequests d (assembly (world s))
              ++ [SetStackHeight (static_cast_int (length layout))]).
      split; [by apply operator_BlockId_requests|].
      by rewrite instructions_app, labelRequests_instructions.
    + destruct (enterBlock_missing (scopeEntry _block s) _block d Hblock Hin)
        as (s1 & Hrun & _ & Hreq & _).
      exists (labelRequests d (assembly (world s))).
      unfold operator_BlockId.
      rewrite traverseBlock_scope, (bind_Throws _ _ _ _ _ Hrun).
      split; [exact Hreq|]. apply labelRequests_instructions.
  - exists []. unfold operator_BlockId. rewrite traverseBlock_scope.
    unfold enterBlock, defineLabel, bind, blockData. cbn. rewrite Hblock. cbn.
    by rewrite app_nil_r.
Qed.

Section RunAndTheSink.

Variable SSACFGLiveness_new : SSACFG → SSACFGLiveness.

Lemma compileMain_world (controlFlow : ControlFlow) policy (w : World) :
  ∃ added,
    requests (assembly (snd (compileMain operator_Operation SSACFGLiveness_new
                               controlFlow policy w)))
      = requests (assembly w) ++ added ∧
    instructions added = [].
Proof.
  destruct (SSAEVMCodeTransform_new_world policy (mainGraph controlFlow)
              (SSACFGLiveness_new (mainGraph controlFlow)) w)
    as (t0 & w0 & added & Hnew & _ & _ & _ & _ & Hrequests & Hadded).
  unfold compileMain. rewrite (bind_Returns _ _ _ _ _ Hnew).
  unfold bind at 1. unfold call_on.
  set (s0 := {| world := w0; this := t0 |}).
  assert (∃ added',
            requests (assembly (world (snd ((forceEmptyEntry ;;'
                                               traverseBlock operator_Operation 0) s0))))
              = requests (assembly w0) ++ added' ∧
            instructions added' = []) as (added' & Hrequests' & Hadded').
  { unfold bind at 1.
    destruct (forceEmptyEntry s0) as [[[]|f] s1] eqn:Hforce.
    - assert (world s1 = w0) as <-.
      { revert Hforce. unfold forceEmptyEntry, bind, blockData.
        destruct (m_blockData (this s0) !! 0); [|done]. by intros [= <-]. }
      apply operator_BlockId_world.
    - exists []. rewrite app_nil_r. revert Hforce.
      unfold forceEmptyEntry, bind, blockData.
      destruct (m_blockData (this s0) !! 0); [done|]. by intros [= _ <-]. }
  exists (added ++ added').
  rewrite instructions_app, Hadded, Hadded', app_assoc, <- Hrequests, <- Hrequests'.
  by destruct ((forceEmptyEntry ;;' traverseBlock operator_Operation 0) s0) as [[[]|f] s3].
Qed.

(** The driver sends labels and heights to the sink, and no instruction. *)
Lemma run_world (controlFlow : ControlFlow) policy (w : World) :
  ∃ added,
    requests (assembly (snd (run SSACFGLiveness_new controlFlow policy w)))
      = requests (assembly w) ++ added ∧
    instructions added = [].
Proof.
  destruct (compileMain_world controlFlow policy w) as (added & Hrequests & Hadded).
  unfold run, run_with. unfold bind at 1.
  destruct (compileMain operator_Operation SSACFGLiveness_new controlFlow policy w)
    as [[t|f] w1]; cbn [snd] in Hrequests; [|by exists added].
  edestruct (compileFunctions_world SSACFGLiveness_new policy
               (functionGraphMapping controlFlow)) as (added' & _ & Hrequests' & Hadded').
  exists (added ++ added').
  by rewrite Hrequests', Hrequests, instructions_app, Hadded, Hadded', <- app_assoc.
Qed.

End RunAndTheSink.

(** C9: a discard takes exactly the top slot off the working stack and is
    emitted only when the stack is not empty: on an empty stack [pop] raises
    the fault and nothing is emitted or changed; otherwise the stack loses
    its last slot and one POP goes to the sink. No value that is recorded
    live is discarded: the processing of the operations of a block, with
    their live-out sets, returns with the working stack and the sink as they
    were, a block traversal emits no discard from whatever state it starts,
    and the driver adds no instruction to those the sink has. *)
Theorem discards_take_the_top_and_spare_live_values (s : State) :
  ((m_stack (this s) = [] ∧ pop s = (Throws (YulAssertion ""), s)) ∨
   (∃ rest top,
       m_stack (this s) = rest ++ [top] ∧
       pop s = (Returns tt, popped rest s) ∧
       m_stack (this (popped rest s)) = rest ∧
       requests (assembly (world (popped rest s)))
         = requests (assembly (world s)) ++ [AppendInstruction POP])) ∧
  (∀ (visited : list (Operation * gset ValueId)),
     for_each visited (λ p, operator_Operation (fst p) (snd p)) s = (Returns tt, s)) ∧
  (∀ _block,
     m_stack (this (snd (processOperations operator_Operation _block s)))
       = m_stack (this s) ∧
     AppendInstruction POP ∉ requests_added s (snd (operator_BlockId _block s))) ∧
  (∀ SSACFGLiveness_new controlFlow policy w,
     instructions (requests (assembly (snd (run SSACFGLiveness_new controlFlow policy w))))
       = instructions (requests (assembly w))).
Proof.
  split; [apply pop_cases|].
  split; [intros visited; apply for_each_operator_Operation|].
  split.
  - intros _block. split.
    + by rewrite processOperations_operator_Operation.
    + apply operator_BlockId_emits_no_instruction.
  - intros SSACFGLiveness_new controlFlow policy w.
    destruct (run_world SSACFGLiveness_new controlFlow policy w)
      as (added & -> & Hadded).
    by rewrite instructions_app, Hadded, app_nil_r.
Qed.


(** ** How [swap] and [pop] compose *)

Lemma swap_with_back_involutive (v : list StackSlot) (depth : nat) :
  depth < length v →
  swap_with_back (length v - depth - 1) (swap_with_back (length v - depth - 1) v) = v.
Proof.
  intros Hin.
  pose proof (swap_with_back_length v depth) as Hlen.
  assert (Hin' : depth < length (swap_with_back (length v - depth - 1) v)) by lia.
  pose proof (swap_with_back_top _ depth Hin') as Htop.
  pose proof (swap_with_back_below _ depth Hin') as Hbelow.
  pose proof (swap_with_back_other _ depth Hin') as Hother.
  rewrite Hlen in Htop, Hbelow, Hother.
  apply list_eq. intros j.
  destruct (decide (j = length v - 1)) as [->|Hj1].
  - rewrite Htop. by apply swap_with_back_below.
  - destruct (decide (j = length v - depth - 1)) as [->|Hj2].
    + rewrite Hbelow. by apply swap_with_back_top.
    + rewrite Hother by done. by apply swap_with_back_other.
Qed.

Lemma swap_with_back_Permutation (v : list StackSlot) (depth : nat) :
  depth < length v → swap_with_back (length v - depth - 1) v ≡ₚ v.
Proof.
  intros Hin.
  destruct (swap_with_back_defined v depth Hin) as (a & b & Ha & Hb & ->).
  by apply Permutation_insert_swap.
Qed.

Lemma lookup_removelast {A} (l : list A) (j : nat) :
  j < length l - 1 → removelast l !! j = l !! j.
Proof.
  intros Hj. destruct (snoc_cases l) as [->|(rest & top & ->)]; [done|].
  rewrite removelast_snoc. rewrite length_app in Hj. cbn in Hj.
  by rewrite lookup_app_l by lia.
Qed.

Lemma length_removelast {A} (l : list A) : length (removelast l) = length l - 1.
Proof.
  destruct (snoc_cases l) as [->|(rest & top & ->)]; [done|].
  rewrite removelast_snoc, length_app. cbn. lia.
Qed.

(** X4. Two swaps at the same depth undo each other: for a depth from 1 to
    16 on a working stack with more than [_depth] slots both complete, the
    stack is again what it was, and the sink has received the same swap
    request twice. *)
Theorem swap_twice_restores_the_stack (_depth : nat) (s : State) :
  1 ≤ _depth ≤ 16 →
  _depth < length (m_stack (this s)) →
  ∃ s',
    (swap _depth ;;' swap _depth) s = (Returns tt, s') ∧
    m_stack (this s') = m_stack (this s) ∧
    requests (assembly (world s'))
      = requests (assembly (world s))
          ++ [AppendInstruction (SWAP (N.of_nat _depth));
              AppendInstruction (SWAP (N.of_nat _depth))].
Proof.
  intros Hdepth Hin.
  destruct (static_cast_unsigned_addressable _ Hdepth) as [Hcast Hn].
  rewrite (bind_Returns _ _ _ _ _ (swap_in_range _depth s Hn Hin)).
  rewrite swap_in_range
    by (done || (cbn; by rewrite swap_with_back_length)).
  eexists. split; [reflexivity|]. cbn.
  rewrite swap_with_back_length.
  split; [by apply swap_with_back_involutive|].
  by rewrite <- app_assoc, Hcast.
Qed.

(** X4, on a stack of three slots, the swap reaching the bottom. *)
Lemma swap_twice_restores_the_stack_witness :
  ∃ s',
    (swap 2 ;;' swap 2) (state_of_stack [ValueSlot 0; ValueSlot 1; ValueSlot 2])
      = (Returns tt, s') ∧
    m_stack (this s') = [ValueSlot 0; ValueSlot 1; ValueSlot 2] ∧
    requests (assembly (world s'))
      = [AppendInstruction (SWAP 2); AppendInstruction (SWAP 2)].
Proof.
  refine (swap_twice_restores_the_stack 2
            (state_of_stack [ValueSlot 0; ValueSlot 1; ValueSlot 2]) _ _).
  - lia.
  - cbn. lia.
Defined.

(** X5. [swap] never loses or doubles a slot: whether it completes or raises
    the fault, the working stack afterwards is a permutation of the working
    stack before. *)
Theorem swap_permutes_the_stack (_depth : nat) (s : State) :
  m_stack (this (snd (swap _depth s))) ≡ₚ m_stack (this s).
Proof.
  destruct (decide (1 ≤ static_cast_unsigned _depth ≤ 16)%N) as [Hn|Hn];
    [|by rewrite (swap_refused _ _ Hn)].
  destruct (decide (_depth < length (m_stack (this s)))) as [Hin|Hout].
  - rewrite (swap_in_range _ _ Hn Hin). cbn. by apply swap_with_back_Permutation.
  - by rewrite (swap_out_of_range _ s Hn) by lia.
Qed.

(** X6. [swap(_depth)] followed by [pop] drops the slot [_depth] below the
    top: for a depth from 1 to 16 on a working stack with more than [_depth]
    slots both complete, the stack is one slot shorter, the former top sits
    where the dropped slot was, every other slot is where it was, and the
    sink has received the swap and one POP. *)
Theorem swap_then_pop_drops_the_slot_below (_depth : nat) (s : State) :
  1 ≤ _depth ≤ 16 →
  _depth < length (m_stack (this s)) →
  let top := length (m_stack (this s)) - 1 in
  ∃ s',
    (swap _depth ;;' pop) s = (Returns tt, s') ∧
    m_stack (this s') = dropped_below _depth (m_stack (this s)) ∧
    length (m_stack (this s')) = top ∧
    m_stack (this s') !! (top - _depth) = m_stack (this s) !! top ∧
    (∀ j, j < top → j ≠ top - _depth → m_stack (this s') !! j = m_stack (this s) !! j) ∧
    requests (assembly (world s'))
      = requests (assembly (world s))
          ++ [AppendInstruction (SWAP (N.of_nat _depth)); AppendInstruction POP].
Proof.
  intros Hdepth Hin top.
  destruct (static_cast_unsigned_addressable _ Hdepth) as [Hcast Hn].
  rewrite (bind_Returns _ _ _ _ _ (swap_in_range _depth s Hn Hin)).
  set (v := m_stack (this s)) in *.
  set (v' := swap_with_back (length v - _depth - 1) v).
  pose proof (swap_with_back_length v _depth) as Hlen. fold v' in Hlen.
  destruct (snoc_cases v') as [Hnil|(rest & x & Hv')].
  { rewrite Hnil in Hlen. cbn in Hlen. lia. }
  erewrite pop_snoc by (cbn; fold v v'; exact Hv').
  eexists. split; [reflexivity|]. cbn.
  assert (Hrest : rest = dropped_below _depth v).
  { unfold dropped_below. fold v'. by rewrite Hv', removelast_snoc. }
  rewrite Hrest. unfold dropped_below. fold v'.
  replace (top - _depth) with (length v - _depth - 1) by (unfold top; lia).
  split; [done|]. split; [rewrite length_removelast; unfold top; lia|].
  split.
  { rewrite lookup_removelast by lia. by apply swap_with_back_below. }
  split.
  { intros j Hj Hne. rewrite lookup_removelast by (unfold top in Hj; lia).
    apply swap_with_back_other; [done|done|unfold top in Hj; lia]. }
  by rewrite <- app_assoc, Hcast.
Qed.

(** X6, on a stack of three slots: the bottom slot is dropped. *)
Lemma swap_then_pop_drops_the_slot_below_witness :
  ∃ s',
    (swap 2 ;;' pop) (state_of_stack [ValueSlot 0; ValueSlot 1; ValueSlot 2])
      = (Returns tt, s') ∧
    m_stack (this s') = [ValueSlot 2; ValueSlot 1] ∧
    length (m_stack (this s')) = 2 ∧
    m_stack (this s') !! 0 = Some (ValueSlot 2) ∧
    (∀ j, j < 2 → j ≠ 0 →
          m_stack (this s') !! j = [ValueSlot 0; ValueSlot 1; ValueSlot 2] !! j) ∧
    requests (assembly (world s'))
      = [AppendInstruction (SWAP 2); AppendInstruction POP].
Proof.
  refine (swap_then_pop_drops_the_slot_below 2
            (state_of_stack [ValueSlot 0; ValueSlot 1; ValueSlot 2]) _ _).
  - lia.
  - cbn. lia.
Defined.

(** ** What a block traversal leaves of the tables *)

Lemma enterBlock_tables (_block : BlockId) (s : State) :
  m_blockData (this (snd (enterBlock _block s))) = blockData_after _block s ∧
  m_functionLabels (this (snd (enterBlock _block s))) = m_functionLabels (this s) ∧
  m_currentBlock (this (snd (enterBlock _block s))) = m_currentBlock (this s).
Proof.
  unfold blockData_after, enterBlock, defineLabel, loadStackIn, bind, blockData.
  destruct (m_blockData (this s) !! _block) as [d|] eqn:Hblock; [|done].
  assert (Hlt : _block < length (m_blockData (this s))) by (by eapply lookup_lt_Some).
  destruct (label d) as [l|] eqn:Hl; cbn.
  - rewrite Hblock. by destruct (stackIn d).
  - rewrite list_lookup_insert_eq by done. cbn. by destruct (stackIn d).
Qed.

Lemma blockData_after_length (_block : BlockId) (s : State) :
  length (blockData_after _block s) = length (m_blockData (this s)).
Proof.
  unfold blockData_after.
  destruct (m_blockData (this s) !! _block) as [d|]; [|done].
  destruct (label d); [done|]. apply length_insert.
Qed.

Lemma blockData_after_lookup (_block : BlockId) (s : State) b d :
  m_blockData (this s) !! b = Some d →
  ∃ d', blockData_after _block s !! b = Some d' ∧
        stackIn d' = stackIn d ∧
        (b ≠ _block → d' = d) ∧
        (is_Some (label d) → d' = d).
Proof.
  intros Hb. unfold blockData_after.
  destruct (m_blockData (this s) !! _block) as [d0|] eqn:Hblock; [|by exists d].
  destruct (label d0) as [l|] eqn:Hl; [by exists d|].
  destruct (decide (b = _block)) as [->|Hne].
  - assert (d0 = d) as -> by congruence.
    eexists. split.
    { apply list_lookup_insert_eq. by eapply lookup_lt_Some. }
    split; [done|]. split; [done|].
    rewrite Hl. by intros [? ?].
  - exists d. by rewrite list_lookup_insert_ne.
Qed.

(** X7. A block traversal with the bodies of the file, however it ends,
    leaves the label table alone, has recorded the block as the current one,
    and keeps the metadata of the blocks but for one thing: the block that is
    visited gets a label if it had none. No entry layout is changed, no
    label that is there is replaced, and no other block is touched. *)
Theorem traversal_keeps_the_entry_layouts (_block : BlockId) (s : State) :
  let s' := snd (operator_BlockId _block s) in
  m_functionLabels (this s') = m_functionLabels (this s) ∧
  m_currentBlock (this s') = Some _block ∧
  length (m_blockData (this s')) = length (m_blockData (this s)) ∧
  ∀ b d, m_blockData (this s) !! b = Some d →
    ∃ d', m_blockData (this s') !! b = Some d' ∧
          stackIn d' = stackIn d ∧
          (b ≠ _block → d' = d) ∧
          (is_Some (label d) → d' = d).
Proof.
  cbv zeta. unfold operator_BlockId. rewrite traverseBlock_scope. unfold bind.
  destruct (enterBlock_tables _block (scopeEntry _block s)) as (Hdata & Hlabels & Hcurrent).
  assert (Hafter : blockData_after _block (scopeEntry _block s) = blockData_after _block s)
    by reflexivity.
  rewrite Hafter in Hdata.
  assert (Hgoal : ∀ s2 : State,
            m_blockData (this s2) = blockData_after _block s →
            m_functionLabels (this s2) = m_functionLabels (this s) →
            m_currentBlock (this s2) = Some _block →
            m_functionLabels (this (scopeExit s s2)) = m_functionLabels (this s) ∧
            m_currentBlock (this (scopeExit s s2)) = Some _block ∧
            length (m_blockData (this (scopeExit s s2))) = length (m_blockData (this s)) ∧
            ∀ b d, m_blockData (this s) !! b = Some d →
              ∃ d', m_blockData (this (scopeExit s s2)) !! b = Some d' ∧
                    stackIn d' = stackIn d ∧ (b ≠ _block → d' = d) ∧
                    (is_Some (label d) → d' = d)).
  { intros s2 H1 H2 H3. cbn. rewrite H1.
    split; [done|]. split; [done|]. split; [apply blockData_after_length|].
    intros b d Hb. by apply blockData_after_lookup. }
  destruct (enterBlock _block (scopeEntry _block s)) as [[[]|f] s1]; cbn [snd] in *.
  - pose proof (processOperations_operator_Operation _block s1) as Hops.
    destruct (processOperations operator_Operation _block s1) as [o s2].
    cbn [snd] in *. subst s2. by apply Hgoal.
  - by apply Hgoal.
Qed.

(** ** The named label of a function *)

Lemma int64_to_size_t_nonnegative (z : Z) :
  (0 ≤ z < 2 ^ 63)%Z → int64_to_size_t z = Z.to_N z.
Proof. intros H. unfold int64_to_size_t. f_equal. apply Z.mod_small. lia. Qed.

Lemma int64_to_size_t_negative (z : Z) :
  (- 2 ^ 63 ≤ z < 0)%Z → int64_to_size_t z = Z.to_N (2 ^ 64 + z).
Proof.
  intros H. unfold int64_to_size_t. f_equal.
  symmetry. apply (Z.mod_unique_pos z (2 ^ 64) (-1)); lia.
Qed.

(** X8. Under a policy that names labels, the constructor asks the sink for
    one named label for the function of the graph, with the name of the
    function, the number of arguments and of returns of the graph, and the
    debug id of the graph as the sink takes it, an unsigned 64-bit number:
    absent when the graph has no debug data or the data has no id, the id
    itself when it is not negative, and [2^64 + id] when it is negative. *)
Theorem named_label_carries_name_and_arity policy (_cfg : SSACFG)
    (_liveness : SSACFGLiveness) (w : World) f t w' :
  function _cfg = Some f →
  policy ≠ Never →
  SSAEVMCodeTransform_new policy _cfg _liveness w = (Returns t, w') →
  ∃ id,
    requests (assembly w')
      = requests (assembly w)
          ++ [NamedLabel (name f) (length (arguments _cfg)) (length (returns _cfg)) id] ∧
    (debugData _cfg = None → id = None) ∧
    (∀ d, debugData _cfg = Some d → astID d = None → id = None) ∧
    (∀ d z, debugData _cfg = Some d → astID d = Some z →
            (0 ≤ z < 2 ^ 63)%Z → id = Some (Z.to_N z)) ∧
    (∀ d z, debugData _cfg = Some d → astID d = Some z →
            (- 2 ^ 63 ≤ z < 0)%Z → id = Some (Z.to_N (2 ^ 64 + z))).
Proof.
  intros Hf Hpolicy Hnew.
  exists (int64_to_size_t <$>
            match debugData _cfg with Some d => astID d | None => None end).
  split.
  { revert Hnew.
    unfold SSAEVMCodeTransform_new, functionLabels_init, bind. rewrite Hf.
    unfold set_insert. cbn [snd].
    rewrite (bool_decide_true (name f ∉ (∅ : gset string))) by set_solver.
    destruct policy; [done| |]; cbn; by intros [= <- <-]. }
  split; [by intros ->|].
  split; [by intros d -> ->|].
  split.
  - intros d z -> -> Hz. cbn. by rewrite int64_to_size_t_nonnegative.
  - intros d z -> -> Hz. cbn. by rewrite int64_to_size_t_negative.
Qed.

(** X8, for a graph of two arguments and one return with debug id -1: the
    sink is handed the id 2^64 - 1. *)
Lemma named_label_carries_name_and_arity_witness :
  requests (assembly (snd (SSAEVMCodeTransform_new Yes graph_with_debug_data
                             (no_records graph_with_debug_data) empty_world)))
    = [NamedLabel "f" 2 1 (Some 18446744073709551615%N)].
Proof.
  destruct (named_label_carries_name_and_arity Yes graph_with_debug_data
              (no_records graph_with_debug_data) empty_world first_f _ _ eq_refl
              ltac:(discriminate) eq_refl) as (id & Hrequests & _ & _ & _ & Hnegative).
  refine (eq_trans Hrequests _).
  rewrite (Hnegative _ (-1)%Z eq_refl eq_refl) by lia.
  reflexivity.
Defined.

(** ** Debug output *)

Lemma append_inv_tail (s1 s2 t : string) : s1 +:+ t = s2 +:+ t → s1 = s2.
Proof.
  assert (Hlen : ∀ a b, String.length (a +:+ b) = String.length a + String.length b).
  { intros a b. induction a as [|c a IH]; [done|].
    change (String c a +:+ b) with (String c (a +:+ b)). cbn. by f_equal. }
  revert s2. induction s1 as [|c1 s1 IH]; intros [|c2 s2] H.
  - done.
  - apply (f_equal String.length) in H. rewrite !Hlen in H. cbn in H. lia.
  - apply (f_equal String.length) in H. rewrite !Hlen in H. cbn in H. lia.
  - change (String c1 (s1 +:+ t) = String c2 (s2 +:+ t)) in H.
    injection H as -> H. f_equal. by apply IH.
Qed.

Lemma pretty_N_char_digit (x : N) : starts_with_digit (String (pretty_N_char x) "").
Proof.
  unfold starts_with_digit, pretty_N_char. apply list_elem_of_In.
  repeat case_match; cbn; tauto.
Qed.

Lemma pretty_N_go_digit (x : N) (s : string) :
  starts_with_digit s → starts_with_digit (pretty_N_go x s).
Proof.
  revert s. induction (N.lt_wf_0 x) as [x _ IH]; intros s Hs.
  assert (x = 0 ∨ 0 < x)%N as [->|Hpos] by lia.
  - by rewrite pretty_N_go_0.
  - rewrite pretty_N_go_step by done. apply IH; [by apply N.div_lt|].
    apply pretty_N_char_digit.
Qed.

(** A number in decimal starts with a digit. *)
Lemma pretty_N_digit (x : N) : starts_with_digit (pretty x).
Proof.
  unfold pretty, pretty_N. case_decide as Hx.
  - apply list_elem_of_In. cbn. tauto.
  - rewrite pretty_N_go_step by lia.
    apply pretty_N_go_digit, pretty_N_char_digit.
Qed.

Lemma pretty_N_first (x : N) c s :
  pretty x = String c s → c ∈ String.list_ascii_of_string "0123456789".
Proof. intros H. pose proof (pretty_N_digit x) as Hd. by rewrite H in Hd. Qed.

Section DebugOutputProperties.

Variable valueInfo : SSACFG → ValueId → ValueInfo.
Variable t : SSAEVMCodeTransform.

(** X9. The text of a slot tells its kind: two slots with the same text are
    both labels, both the sentinel (the one value written INVALID, whatever
    the graph says of it), both unreachable, both literals of the same
    constant, or both ordinary values. *)
Theorem slot_text_tells_the_kind (a b : StackSlot) :
  stackSlotToString valueInfo t a = stackSlotToString valueInfo t b →
  slotKind valueInfo t a = slotKind valueInfo t b.
Proof.
  unfold stackSlotToString, ssaCfgVarToString, slotKind.
  destruct a as [va|la], b as [vb|lb]; repeat case_bool_decide;
    repeat match goal with
      | |- context [valueInfo ?g ?v] => destruct (valueInfo g v)
      end;
    cbn; intros Htext; try reflexivity; try discriminate Htext;
    try (by apply (inj pretty) in Htext as ->);
    exfalso;
    first [ apply pretty_N_first in Htext
          | symmetry in Htext; apply pretty_N_first in Htext ];
    apply list_elem_of_In in Htext; cbn in Htext; intuition discriminate.
Qed.

(** X10. Labels, the sentinel and ordinary values are told apart by their
    text: two such slots with the same text are the same slot. *)
Theorem slot_text_identifies_the_slot (a b : StackSlot) :
  identifiable valueInfo t a →
  identifiable valueInfo t b →
  stackSlotToString valueInfo t a = stackSlotToString valueInfo t b →
  a = b.
Proof.
  unfold identifiable, stackSlotToString, ssaCfgVarToString.
  destruct a as [va|la], b as [vb|lb]; intros Ha Hb;
    repeat case_bool_decide;
    repeat match goal with
      | H : _ ∨ _ |- _ => destruct H as [H|H]; [done|rewrite H]
      | H : _ ∨ _ |- _ => destruct H as [H|H]; [|rewrite H]
      end;
    cbn; intros Htext; try discriminate Htext.
  - f_equal. apply Nat2N.inj. congruence.
  - apply (inj (String.append _)) in Htext. f_equal. by apply (inj pretty) in Htext.
  - apply (inj (String.append _)) in Htext. f_equal.
    apply append_inv_tail in Htext. by apply (inj pretty) in Htext.
Qed.

End DebugOutputProperties.

(** X9, on two values that are the literal 7: both are written 7. *)
Lemma slot_text_tells_the_kind_witness :
  stackSlotToString all_literal_7 (this two_operation_state) (ValueSlot 3) = "7" ∧
  stackSlotToString all_literal_7 (this two_operation_state) (ValueSlot 4) = "7" ∧
  slotKind all_literal_7 (this two_operation_state) (ValueSlot 3)
    = slotKind all_literal_7 (this two_operation_state) (ValueSlot 4).
Proof.
  split; [reflexivity|]. split; [reflexivity|].
  apply (slot_text_tells_the_kind all_literal_7 (this two_operation_state)
           (ValueSlot 3) (ValueSlot 4)).
  reflexivity.
Defined.

(** X10, on the ordinary value 3, written v3. *)
Lemma slot_text_identifies_the_slot_witness :
  stackSlotToString all_ordinary (this two_operation_state) (ValueSlot 3) = "v3" ∧
  ValueSlot 3 = ValueSlot 3.
Proof.
  split; [reflexivity|].
  apply (slot_text_identifies_the_slot all_ordinary (this two_operation_state)
           (ValueSlot 3) (ValueSlot 3)).
  - right. reflexivity.
  - right. reflexivity.
  - reflexivity.
Defined.
